(** * AI Interview Screener: response extraction and batch ranking

    A shallow embedding of [main.py]: the fence stripper [_strip_markdown],
    the extraction pipeline of [evaluate_with_groq], the two request
    handlers [evaluate_answer] and [rank_candidates], and the Python
    library operations they rely on ([str.strip], [re.search],
    [json.loads], [int], [list.sort]). *)

From Stdlib Require Import String Ascii.
From Stdlib Require Import List ZArith NArith Bool Lia.
From Stdlib Require Import Permutation Sorted.
From Stdlib Require Import Floats.SpecFloat DecimalString.
Import ListNotations.

Set Implicit Arguments.

(** ** Python strings

    A Python [str] is a sequence of Unicode code points.  Every literal of
    the source is ASCII, so literals are written as Rocq strings and read
    through [lit]. *)

Definition char := N.
Definition str := list char.

Definition lit (s : string) : str := map N_of_ascii (list_ascii_of_string s).

Local Open Scope N_scope.

(** [str.isspace] on one code point; [str.strip] and the regex class [\s]
    both use this set. *)
Definition isspace (c : char) : bool :=
  ((9 <=? c) && (c <=? 13)) || ((28 <=? c) && (c <=? 32))
  || (c =? 133) || (c =? 160) || (c =? 5760)
  || ((8192 <=? c) && (c <=? 8202))
  || (c =? 8232) || (c =? 8233) || (c =? 8239) || (c =? 8287) || (c =? 12288).

Fixpoint lstrip (s : str) : str :=
  match s with
  | c :: t => if isspace c then lstrip t else s
  | [] => []
  end.

Definition rstrip (s : str) : str := rev (lstrip (rev s)).

(** [s.strip()] *)
Definition strip (s : str) : str := rstrip (lstrip s).

(** [s.startswith(p)] *)
Fixpoint startswith (s p : str) {struct p} : bool :=
  match p with
  | [] => true
  | a :: p' =>
      match s with
      | b :: s' => (a =? b) && startswith s' p'
      | [] => false
      end
  end.

(** [p in s] for two strings: substring test. *)
Fixpoint contains (s p : str) : bool :=
  startswith s p ||
  match s with
  | [] => false
  | _ :: t => contains t p
  end.

Definition str_eqb (a b : str) : bool :=
  if list_eq_dec N.eq_dec a b then true else false.

(** ** Regular expressions

    The two patterns of the source use literals, an optional non-capturing
    group, greedy and lazy stars over a one-character class, and one
    capturing group.  [exec] is a backtracking matcher in continuation
    style with the priorities of Python's [re]: a greedy operator tries the
    longer alternative first, a lazy one the shorter. *)

Inductive regex : Type :=
| Lit (p : str)
| Opt (r : regex)
| Star (c : char -> bool)
| StarLazy (c : char -> bool)
| Group (r : regex)
| Cat (r1 r2 : regex).

Record re_match : Type := MkMatch {
  group0 : str;
  group1 : option str
}.

Section Matcher.
Variable A : Type.

Fixpoint star (c : char -> bool) (k : str -> option A) (s : str) : option A :=
  match s with
  | x :: t =>
      if c x then
        match star c k t with
        | Some m => Some m
        | None => k s
        end
      else k s
  | [] => k []
  end.

Fixpoint star_lazy (c : char -> bool) (k : str -> option A) (s : str) : option A :=
  match k s with
  | Some m => Some m
  | None =>
      match s with
      | x :: t => if c x then star_lazy c k t else None
      | [] => None
      end
  end.

Fixpoint exec (r : regex) (s : str) (g : option str)
    (k : str -> option str -> option A) : option A :=
  match r with
  | Lit p => if startswith s p then k (skipn (length p) s) g else None
  | Opt r' =>
      match exec r' s g k with
      | Some m => Some m
      | None => k s g
      end
  | Star c => star c (fun t => k t g) s
  | StarLazy c => star_lazy c (fun t => k t g) s
  | Group r' =>
      exec r' s g (fun t _ => k t (Some (firstn (length s - length t) s)))
  | Cat r1 r2 => exec r1 s g (fun t g' => exec r2 t g' k)
  end.
End Matcher.

(** [re.match]: a match anchored at the start of [s]. *)
Definition re_match_at (r : regex) (s : str) : option re_match :=
  exec r s None
    (fun t g => Some (MkMatch (firstn (length s - length t) s) g)).

(** [re.search]: the match at the leftmost position that has one. *)
Fixpoint re_search (r : regex) (s : str) : option re_match :=
  match re_match_at r s with
  | Some m => Some m
  | None =>
      match s with
      | [] => None
      | _ :: t => re_search r t
      end
  end.

Definition any_char (c : char) : bool := true.
Definition space_or_not (c : char) : bool := isspace c || negb (isspace c).

Definition fence : str := lit "```".

(** [r"```(?:json)?\s*(.*?)\s*```"] with [re.DOTALL]; [fence_body] is the
    part after the optional tag. *)
Definition fence_body : regex :=
  Cat (Star isspace)
    (Cat (Group (StarLazy any_char))
      (Cat (Star isspace) (Lit fence))).

Definition fence_pattern : regex :=
  Cat (Lit fence) (Cat (Opt (Lit (lit "json"))) fence_body).

(** [r'\{[\s\S]*\}'] *)
Definition brace_pattern : regex :=
  Cat (Lit (lit "{")) (Cat (Star space_or_not) (Lit (lit "}"))).

(** ** [_strip_markdown] *)

Definition strip_fences (text : str) : str :=
  if startswith text fence then
    match re_search fence_pattern text with
    | Some m =>
        match group1 m with
        | Some g => strip g
        | None => text
        end
    | None => text
    end
  else text.

Definition strip_json_tag (text : str) : str :=
  if startswith text (lit "json") then strip (skipn 4 text) else text.

Definition _strip_markdown (text : str) : str :=
  strip_json_tag (strip_fences (strip text)).

(** ** Parsed JSON values

    What [json.loads] returns: [None], [bool], [int], [float], [str], [list]
    and [dict].  A float is an IEEE binary64 value; a dict keeps one binding
    per key, in order of first insertion. *)

Set Warnings "-register-all".

Inductive json : Type :=
| JNull
| JBool (b : bool)
| JInt (n : Z)
| JFloat (f : spec_float)
| JString (s : str)
| JArray (items : list json)
| JObject (members : list (str * json)).

Definition dict := list (str * json).

Fixpoint dict_get (d : dict) (k : str) : option json :=
  match d with
  | [] => None
  | (k', v) :: t => if str_eqb k' k then Some v else dict_get t k
  end.

(** [d[k] = v] *)
Fixpoint dict_set (d : dict) (k : str) (v : json) : dict :=
  match d with
  | [] => [(k, v)]
  | (k', v') :: t =>
      if str_eqb k' k then (k', v) :: t else (k', v') :: dict_set t k v
  end.

Definition dict_has (d : dict) (k : str) : bool :=
  match dict_get d k with Some _ => true | None => false end.

(** ** Exceptions *)

Inductive exc_class : Type :=
| JSONDecodeError      (* subclass of ValueError *)
| ValueError           (* includes pydantic's ValidationError *)
| TypeError
| OverflowError
| RecursionError
| IndexError
| AttributeError
| KeyError
| UnboundLocalError
| ProviderError.       (* any other Exception raised by the SDK *)

Inductive exception : Type :=
| Exc (c : exc_class) (message : str)
| HTTPException (status_code : Z) (detail : str).

Definition is_json_decode_error (e : exception) : bool :=
  match e with Exc JSONDecodeError _ => true | _ => false end.

(** [isinstance(e, ValueError)] *)
Definition is_value_error (e : exception) : bool :=
  match e with
  | Exc JSONDecodeError _ | Exc ValueError _ => true
  | _ => false
  end.

Inductive outcome (A : Type) : Type :=
| Returns (a : A)
| Raises (e : exception).
Arguments Returns {A} a.
Arguments Raises {A} e.

Definition bind {A B : Type} (m : outcome A) (f : A -> outcome B) : outcome B :=
  match m with
  | Returns a => f a
  | Raises e => Raises e
  end.

Notation "x <- m ;; k" := (bind m (fun x => k))
  (at level 61, m at next level, right associativity).

(** Failures raised inside library code; the text of their message is the
    library's. *)
Inductive lib_failure : Type :=
| F_json_decode (doc : str)
| F_int_digits
| F_int_literal (s : str)
| F_int_nan
| F_int_infinity
| F_int_type (v : json)
| F_recursion
| F_not_iterable (v : json)
| F_not_subscriptable (v : json)
| F_key (k : str)
| F_validation (score : Z)
| F_no_choices
| F_none_content
| F_unbound_cleaned_text.

(** Replies of [groq_client.chat.completions.create]: an exception, or a
    response whose choices carry a [message.content] each ([None] when the
    content is null). *)
Inductive api_response : Type :=
| ApiRaises (c : exc_class) (message : str)
| ApiReturns (choices : list (option str)).

(** What the process is started with and what the libraries supply. *)
Record Runtime : Type := {
  groq_available : bool;                         (* _GROQ_AVAILABLE *)
  groq_import_error : str;                       (* _GROQ_IMPORT_ERROR *)
  completions_create : nat -> str -> api_response;
    (* reply to the n-th request, given the user prompt *)
  py_repr : json -> str;                         (* str() of a non-string value *)
  lib_message : lib_failure -> str;              (* str(e) of a library exception *)
  http_str : Z -> str -> str;                    (* str(e) of an HTTPException *)
  unicode_decimal : char -> option Z;            (* unicodedata.decimal, above ASCII *)
  int_max_str_digits : nat;                      (* 0: no limit *)
  recursion_limit : nat                          (* nesting json.loads can reach *)
}.

(** [str(e)] *)
Definition exc_str (rt : Runtime) (e : exception) : str :=
  match e with
  | Exc _ message => message
  | HTTPException status detail => http_str rt status detail
  end.

(** ** [json.loads]

    The decoder of the standard library in its default configuration:
    strict strings, [NaN], [Infinity] and [-Infinity] accepted, whitespace
    limited to space, tab, newline and carriage return. *)

Inductive parse_error : Type :=
| DecodeError      (* JSONDecodeError *)
| DigitLimit       (* ValueError: integer string conversion limit *)
| DepthExceeded.   (* RecursionError *)

Inductive parsed (A : Type) : Type :=
| POk (a : A) (rest : str)
| PErr (e : parse_error).
Arguments POk {A} a rest.
Arguments PErr {A} e.

Definition json_ws (c : char) : bool :=
  (c =? 32) || (c =? 9) || (c =? 10) || (c =? 13).

Fixpoint skip_ws (s : str) : str :=
  match s with
  | c :: t => if json_ws c then skip_ws t else s
  | [] => []
  end.

Definition is_digit (c : char) : bool := (48 <=? c) && (c <=? 57).

Definition hex_value (c : char) : option N :=
  if (48 <=? c) && (c <=? 57) then Some (c - 48)
  else if (97 <=? c) && (c <=? 102) then Some (c - 87)
  else if (65 <=? c) && (c <=? 70) then Some (c - 55)
  else None.

Definition hex4 (a b c d : char) : option N :=
  match hex_value a, hex_value b, hex_value c, hex_value d with
  | Some x, Some y, Some z, Some w => Some (((x * 16 + y) * 16 + z) * 16 + w)
  | _, _, _, _ => None
  end.

Definition is_high_surrogate (u : N) : bool := (55296 <=? u) && (u <=? 56319).
Definition is_low_surrogate (u : N) : bool := (56320 <=? u) && (u <=? 57343).
Definition join_surrogates (hi lo : N) : N :=
  65536 + (hi - 55296) * 1024 + (lo - 56320).

(** The low half of a surrogate pair, when [s] starts with its escape. *)
Definition low_escape (s : str) : option (N * str) :=
  match s with
  | b :: u :: h1 :: h2 :: h3 :: h4 :: rest =>
      if (b =? 92) && (u =? 117) then
        match hex4 h1 h2 h3 h4 with
        | Some lo => if is_low_surrogate lo then Some (lo, rest) else None
        | None => None
        end
      else None
  | _ => None
  end.

Definition simple_escape (c : char) : option char :=
  if c =? 34 then Some 34          (* quote *)
  else if c =? 92 then Some 92     (* backslash *)
  else if c =? 47 then Some 47     (* slash *)
  else if c =? 98 then Some 8      (* b *)
  else if c =? 102 then Some 12    (* f *)
  else if c =? 110 then Some 10    (* n *)
  else if c =? 114 then Some 13    (* r *)
  else if c =? 116 then Some 9     (* t *)
  else None.

(** [scanstring]: the text after an opening quote, up to the closing one.
    [n] bounds the number of characters still to read. *)
Fixpoint scanstring (n : nat) (s acc : str) : option (str * str) :=
  match n with
  | O => None
  | S n' =>
      match s with
      | [] => None
      | c :: t =>
          if c =? 34 then Some (rev acc, t)
          else if c <=? 31 then None
          else if c =? 92 then
            match t with
            | [] => None
            | e :: t1 =>
                if e =? 117 then
                  match t1 with
                  | h1 :: h2 :: h3 :: h4 :: t2 =>
                      match hex4 h1 h2 h3 h4 with
                      | None => None
                      | Some u =>
                          if is_high_surrogate u then
                            match low_escape t2 with
                            | Some (lo, t3) =>
                                scanstring n' t3 (join_surrogates u lo :: acc)
                            | None => scanstring n' t2 (u :: acc)
                            end
                          else scanstring n' t2 (u :: acc)
                      end
                  | _ => None
                  end
                else
                  match simple_escape e with
                  | Some x => scanstring n' t1 (x :: acc)
                  | None => None
                  end
            end
          else scanstring n' t (c :: acc)
      end
  end.

Definition scan_string (s : str) : option (str * str) :=
  scanstring (length s) s [].

(** The digits at the head of [s], most significant first. *)
Fixpoint take_digits (s : str) : list Z * str :=
  match s with
  | c :: t =>
      if is_digit c then
        let (ds, rest) := take_digits t in (Z.of_N (c - 48) :: ds, rest)
      else ([], s)
  | [] => ([], [])
  end.

Definition digits_value (ds : list Z) : Z :=
  fold_left (fun a d => (10 * a + d)%Z) ds 0%Z.

(** [float(text)] for the literal [digits * 10 ^ e10]: correct rounding to
    binary64, ties to even, overflow to infinity. *)
Definition float_of_decimal (neg : bool) (digits e10 : Z) : spec_float :=
  match digits with
  | Zpos m =>
      match e10 with
      | Zneg p =>
          SFdiv 53 1024 (S754_finite neg m 0) (S754_finite false (Pos.pow 10 p) 0)
      | Z0 => binary_round 53 1024 neg m 0
      | Zpos p => binary_round 53 1024 neg (m * Pos.pow 10 p) 0
      end
  | _ => S754_zero neg
  end.

Record number_literal : Type := {
  num_neg : bool;
  num_int : list Z;
  num_frac : list Z;              (* empty when there is no fraction *)
  num_exp : option Z              (* signed exponent, when present *)
}.

(** [NUMBER_RE]: an optional minus sign, then [0] or a run of digits that
    does not start with [0]; then, if present, a dot with at least one
    digit; then, if present, [e] or [E], an optional sign and at least one
    digit.  A dot or an exponent mark that is not followed by a digit is
    left unread. *)
Definition match_number (s : str) : option (number_literal * str) :=
  let (neg, s1) :=
    match s with
    | c :: t => if c =? 45 then (true, t) else (false, s)
    | [] => (false, s)
    end in
  let int_part : option (list Z * str) :=
    match s1 with
    | c :: t =>
        if c =? 48 then Some ([0%Z], t)
        else if is_digit c then Some (take_digits s1)
        else None
    | [] => None
    end in
  match int_part with
  | None => None
  | Some (ints, s2) =>
      let (frac, s3) :=
        match s2 with
        | c :: t =>
            if c =? 46 then
              match take_digits t with
              | ([], _) => ([], s2)
              | (ds, r) => (ds, r)
              end
            else ([], s2)
        | [] => ([], s2)
        end in
      let (ex, s4) :=
        match s3 with
        | c :: t =>
            if (c =? 101) || (c =? 69) then
              let (sign, t') :=
                match t with
                | d :: u =>
                    if d =? 45 then ((-1)%Z, u)
                    else if d =? 43 then (1%Z, u)
                    else (1%Z, t)
                | [] => (1%Z, t)
                end in
              match take_digits t' with
              | ([], _) => (None, s3)
              | (ds, r) => (Some (sign * digits_value ds)%Z, r)
              end
            else (None, s3)
        | [] => (None, s3)
        end in
      Some ({| num_neg := neg; num_int := ints; num_frac := frac; num_exp := ex |}, s4)
  end.

Definition over_digit_limit (limit : nat) (ds : list Z) : bool :=
  match limit with
  | O => false
  | _ => Nat.ltb limit (length ds)
  end.

Definition number_value (limit : nat) (n : number_literal)
    : parse_error + json :=
  match num_frac n, num_exp n with
  | [], None =>
      if over_digit_limit limit (num_int n) then inl DigitLimit
      else
        let v := digits_value (num_int n) in
        inr (JInt (if num_neg n then (- v)%Z else v))
  | frac, ex =>
      let e := match ex with Some e => e | None => 0%Z end in
      inr (JFloat (float_of_decimal (num_neg n)
                     (digits_value (num_int n ++ frac))
                     (e - Z.of_nat (length frac))%Z))
  end.

Section Decoder.
Variable limit : nat.   (* int_max_str_digits *)

(** [scan_once]: one JSON value at the head of [s].  [depth] is the
    nesting still allowed; the member and item loops are bounded by the
    length of the text. *)
Fixpoint scan_once (depth : nat) (s : str) {struct depth} : parsed json :=
  match s with
  | [] => PErr DecodeError
  | c :: t =>
      if c =? 34 then
        match scan_string t with
        | Some (x, rest) => POk (JString x) rest
        | None => PErr DecodeError
        end
      else if c =? 123 then
        match depth with
        | O => PErr DepthExceeded
        | S d =>
            let fix members (n : nat) (s : str) (acc : dict) {struct n}
                : parsed json :=
              match n with
              | O => PErr DecodeError
              | S n' =>
                  match scan_string s with
                  | None => PErr DecodeError
                  | Some (key, s1) =>
                      match skip_ws s1 with
                      | colon :: s2 =>
                          if colon =? 58 then
                            match scan_once d (skip_ws s2) with
                            | PErr e => PErr e
                            | POk v s3 =>
                                let acc' := dict_set acc key v in
                                match skip_ws s3 with
                                | x :: s4 =>
                                    if x =? 125 then POk (JObject acc') s4
                                    else if x =? 44 then
                                      match skip_ws s4 with
                                      | q :: s5 =>
                                          if q =? 34 then members n' s5 acc'
                                          else PErr DecodeError
                                      | [] => PErr DecodeError
                                      end
                                    else PErr DecodeError
                                | [] => PErr DecodeError
                                end
                            end
                          else PErr DecodeError
                      | [] => PErr DecodeError
                      end
                  end
              end in
            match skip_ws t with
            | x :: t1 =>
                if x =? 125 then POk (JObject []) t1
                else if x =? 34 then members (length t1) t1 []
                else PErr DecodeError
            | [] => PErr DecodeError
            end
        end
      else if c =? 91 then
        match depth with
        | O => PErr DepthExceeded
        | S d =>
            let fix items (n : nat) (s : str) (acc : list json) {struct n}
                : parsed json :=
              match n with
              | O => PErr DecodeError
              | S n' =>
                  match scan_once d s with
                  | PErr e => PErr e
                  | POk v s1 =>
                      match skip_ws s1 with
                      | x :: s2 =>
                          if x =? 93 then POk (JArray (rev (v :: acc))) s2
                          else if x =? 44 then items n' (skip_ws s2) (v :: acc)
                          else PErr DecodeError
                      | [] => PErr DecodeError
                      end
                  end
              end in
            match skip_ws t with
            | x :: t1 =>
                if x =? 93 then POk (JArray []) t1
                else items (length t) (skip_ws t) []
            | [] => PErr DecodeError
            end
        end
      else if startswith s (lit "null") then POk JNull (skipn 4 s)
      else if startswith s (lit "true") then POk (JBool true) (skipn 4 s)
      else if startswith s (lit "false") then POk (JBool false) (skipn 5 s)
      else
        match match_number s with
        | Some (n, rest) =>
            match number_value limit n with
            | inr v => POk v rest
            | inl e => PErr e
            end
        | None =>
            if startswith s (lit "NaN") then POk (JFloat S754_nan) (skipn 3 s)
            else if startswith s (lit "Infinity") then
              POk (JFloat (S754_infinity false)) (skipn 8 s)
            else if startswith s (lit "-Infinity") then
              POk (JFloat (S754_infinity true)) (skipn 9 s)
            else PErr DecodeError
        end
  end.
End Decoder.

(** ** Built-in coercions: [int(x)], [str(x)], [x in y], [y[x]] *)

(** [Py_ISSPACE] below code point 127, [str.isspace] from there on. *)
Definition int_space (c : char) : bool :=
  if c <? 127 then ((9 <=? c) && (c <=? 13)) || (c =? 32) else isspace c.

Definition int_digit (rt : Runtime) (c : char) : option Z :=
  if c <? 127 then (if is_digit c then Some (Z.of_N (c - 48)) else None)
  else if isspace c then None
  else unicode_decimal rt c.

Fixpoint int_lstrip (s : str) : str :=
  match s with
  | c :: t => if int_space c then int_lstrip t else s
  | [] => []
  end.

(** Digits with single underscores between them; [after_us] tells that the
    previous character was an underscore. *)
Fixpoint int_digits (rt : Runtime) (s : str) (after_us : bool) (acc : list Z)
    : option (list Z * str) :=
  match s with
  | c :: t =>
      if c =? 95 then
        if after_us then None else int_digits rt t true acc
      else
        match int_digit rt c with
        | Some d => int_digits rt t false (d :: acc)
        | None => if after_us then None else Some (rev acc, s)
        end
  | [] => if after_us then None else Some (rev acc, [])
  end.

Inductive int_str_result : Type :=
| IntParsed (n : Z)
| IntInvalid
| IntTooLong.

(** [int(s)] for a string, base 10. *)
Definition int_of_str (rt : Runtime) (s : str) : int_str_result :=
  let s1 := int_lstrip s in
  let (neg, s2) :=
    match s1 with
    | c :: t =>
        if c =? 43 then (false, t)
        else if c =? 45 then (true, t)
        else (false, s1)
    | [] => (false, s1)
    end in
  match s2 with
  | c :: _ =>
      if c =? 95 then IntInvalid
      else
        match int_digits rt s2 false [] with
        | None => IntInvalid
        | Some ([], _) => IntInvalid
        | Some (ds, rest) =>
            if over_digit_limit (int_max_str_digits rt) ds then IntTooLong
            else
              match int_lstrip rest with
              | [] =>
                  let v := digits_value ds in
                  IntParsed (if neg then (- v)%Z else v)
              | _ => IntInvalid
              end
        end
  | [] => IntInvalid
  end.

Definition raise_lib {A : Type} (rt : Runtime) (c : exc_class) (f : lib_failure)
    : outcome A :=
  Raises (Exc c (lib_message rt f)).

(** [int(x)] for a float: truncation toward zero. *)
Definition int_of_float (rt : Runtime) (f : spec_float) : outcome Z :=
  match f with
  | S754_zero _ => Returns 0%Z
  | S754_infinity _ => raise_lib rt OverflowError F_int_infinity
  | S754_nan => raise_lib rt ValueError F_int_nan
  | S754_finite neg m e =>
      let a :=
        match e with
        | Zneg p => Z.shiftr (Zpos m) (Zpos p)
        | _ => (Zpos m * 2 ^ e)%Z
        end in
      Returns (if neg then (- a)%Z else a)
  end.

Definition py_int (rt : Runtime) (v : json) : outcome Z :=
  match v with
  | JInt n => Returns n
  | JBool b => Returns (if b then 1%Z else 0%Z)
  | JFloat f => int_of_float rt f
  | JString s =>
      match int_of_str rt s with
      | IntParsed n => Returns n
      | IntInvalid => raise_lib rt ValueError (F_int_literal s)
      | IntTooLong => raise_lib rt ValueError F_int_digits
      end
  | JNull | JArray _ | JObject _ => raise_lib rt TypeError (F_int_type v)
  end.

Definition py_str (rt : Runtime) (v : json) : str :=
  match v with
  | JString s => s
  | _ => py_repr rt v
  end.

Definition is_the_string (k : str) (v : json) : bool :=
  match v with
  | JString s => str_eqb s k
  | _ => false
  end.

(** [k in v] for a string [k]: key of a dict, element of a list, substring
    of a string; the other values are not iterable. *)
Definition py_in (rt : Runtime) (k : str) (v : json) : outcome bool :=
  match v with
  | JObject d => Returns (dict_has d k)
  | JArray l => Returns (existsb (is_the_string k) l)
  | JString s => Returns (contains s k)
  | JNull | JBool _ | JInt _ | JFloat _ =>
      raise_lib rt TypeError (F_not_iterable v)
  end.

(** [v[k]] for a string [k] *)
Definition py_getitem (rt : Runtime) (v : json) (k : str) : outcome json :=
  match v with
  | JObject d =>
      match dict_get d k with
      | Some x => Returns x
      | None => raise_lib rt KeyError (F_key k)
      end
  | _ => raise_lib rt TypeError (F_not_subscriptable v)
  end.

Definition json_loads (rt : Runtime) (s : str) : outcome json :=
  let fail (e : parse_error) : outcome json :=
    match e with
    | DecodeError => raise_lib rt JSONDecodeError (F_json_decode s)
    | DigitLimit => raise_lib rt ValueError F_int_digits
    | DepthExceeded => raise_lib rt RecursionError F_recursion
    end in
  if startswith s [65279] then fail DecodeError
  else
    match scan_once (int_max_str_digits rt) (recursion_limit rt) (skip_ws s) with
    | PErr e => fail e
    | POk v rest =>
        match skip_ws rest with
        | [] => Returns v
        | _ :: _ => fail DecodeError
        end
    end.

(** ** Request and response models *)

Module AnswerRequest.
Record t : Type := Make {
  candidate_says : str;
  question_context : str
}.
End AnswerRequest.

Module EvaluationResponse.
Record t : Type := Make {
  score : Z;
  summary : str;
  improvement : str
}.
End EvaluationResponse.

Module CandidateAnswer.
Record t : Type := Make {
  candidate_id : str;
  answer : str;
  question_context : str
}.
End CandidateAnswer.

(** The dictionaries collected in [evaluated_candidates]. *)
Module Evaluated.
Record t : Type := Make {
  candidate_id : str;
  answer : str;
  score : Z;
  summary : str;
  improvement : str
}.
End Evaluated.

Module RankedCandidate.
Record t : Type := Make {
  candidate_id : str;
  answer : str;
  score : Z;
  summary : str;
  improvement : str;
  rank : Z
}.
End RankedCandidate.

(** [EvaluationResponse(score=..., summary=..., improvement=...)]: the
    field [score] is declared with [ge=1, le=5], the two other fields as
    plain [str], which takes every string the caller passes; pydantic's
    ValidationError is a ValueError. *)
Definition new_EvaluationResponse (rt : Runtime) (score : Z)
    (summary improvement : str) : outcome EvaluationResponse.t :=
  if ((1 <=? score) && (score <=? 5))%Z
  then Returns (EvaluationResponse.Make score summary improvement)
  else raise_lib rt ValueError (F_validation score).

(** ** [evaluate_with_groq] *)

Definition nl : str := [10].
Definition dq : str := [34].

Definition context_prompt (question_context : str) : str :=
  match question_context with
  | [] => []
  | _ :: _ => nl ++ lit "Interview Question: " ++ question_context ++ nl
  end.

Definition build_prompt (answer question_context : str) : str :=
  lit "You are an expert technical interviewer evaluating candidate responses."
  ++ nl ++ nl
  ++ context_prompt question_context ++ nl
  ++ lit "Candidate's Answer: " ++ answer ++ nl
  ++ nl
  ++ lit "Evaluate this answer and respond with ONLY a valid JSON object (no markdown, no explanation, no code fences):"
  ++ nl
  ++ lit "{" ++ nl
  ++ lit "  " ++ dq ++ lit "score" ++ dq ++ lit ": <integer 1-5>," ++ nl
  ++ lit "  " ++ dq ++ lit "summary" ++ dq ++ lit ": " ++ dq
  ++ lit "<one concise sentence summarizing the answer>" ++ dq ++ lit "," ++ nl
  ++ lit "  " ++ dq ++ lit "improvement" ++ dq ++ lit ": " ++ dq
  ++ lit "<one specific, actionable suggestion for improvement>" ++ dq ++ nl
  ++ lit "}" ++ nl
  ++ nl
  ++ lit "Scoring Guide:" ++ nl
  ++ lit "- 1: Poor - Incorrect, irrelevant, or demonstrates lack of understanding" ++ nl
  ++ lit "- 2: Below Average - Partially correct but significant gaps in knowledge" ++ nl
  ++ lit "- 3: Average - Correct but lacks depth or misses key points" ++ nl
  ++ lit "- 4: Good - Solid answer with good understanding and detail" ++ nl
  ++ lit "- 5: Excellent - Comprehensive, insightful, demonstrates deep expertise" ++ nl
  ++ nl
  ++ lit "Be concise but constructive. Return ONLY the JSON object.".

(** Lines 163-171: parse the cleaned text, falling back to the span from
    the first opening brace to the last closing one. *)
Definition parse_json (rt : Runtime) (cleaned_text : str) : outcome json :=
  match json_loads rt cleaned_text with
  | Returns result => Returns result
  | Raises e =>
      if is_json_decode_error e then
        match re_search brace_pattern cleaned_text with
        | Some json_match => json_loads rt (group0 json_match)
        | None =>
            Raises (Exc ValueError
              (lit "Could not parse JSON from response: " ++ firstn 200 cleaned_text))
        end
      else Raises e
  end.

(** Lines 174-175: the three membership tests, left to right. *)
Definition missing_required (rt : Runtime) (result : json) : outcome bool :=
  has_score <- py_in rt (lit "score") result ;;
  if negb has_score then Returns true
  else
    has_summary <- py_in rt (lit "summary") result ;;
    if negb has_summary then Returns true
    else
      has_improvement <- py_in rt (lit "improvement") result ;;
      Returns (negb has_improvement).

(** Lines 173-181: validate and coerce. *)
Definition build_evaluation (rt : Runtime) (result : json)
    : outcome EvaluationResponse.t :=
  missing <- missing_required rt result ;;
  if missing then
    Raises (Exc ValueError
      (lit "Missing required fields in response: " ++ py_str rt result))
  else
    raw_score <- py_getitem rt result (lit "score") ;;
    score <- py_int rt raw_score ;;
    raw_summary <- py_getitem rt result (lit "summary") ;;
    raw_improvement <- py_getitem rt result (lit "improvement") ;;
    new_EvaluationResponse rt score (py_str rt raw_summary) (py_str rt raw_improvement).

(** Lines 159-181, from the cleaned text on. *)
Definition extract (rt : Runtime) (cleaned_text : str)
    : outcome EvaluationResponse.t :=
  result <- parse_json rt cleaned_text ;;
  build_evaluation rt result.

(** The three [except] clauses, in order.  [cleaned_text] is [None] while
    the variable is not yet bound. *)
Definition handle (rt : Runtime) (cleaned_text : option str) (e : exception)
    : exception :=
  if is_json_decode_error e then
    match cleaned_text with
    | Some c =>
        HTTPException 500
          (lit "Failed to parse JSON from model. Raw response: " ++ firstn 300 c)
    | None => Exc UnboundLocalError (lib_message rt F_unbound_cleaned_text)
    end
  else if is_value_error e then HTTPException 500 (exc_str rt e)
  else HTTPException 500 (lit "Groq API error: " ++ exc_str rt e).

(** [calls] is the list of prompts sent to the model so far; the function
    returns it extended by the request it made, if any. *)
Definition evaluate_with_groq (rt : Runtime) (calls : list str)
    (answer question_context : str)
    : outcome EvaluationResponse.t * list str :=
  if negb (groq_available rt) then
    (Raises (HTTPException 500
       (lit "Groq SDK not available: " ++ groq_import_error rt)), calls)
  else
    let prompt := build_prompt answer question_context in
    let calls' := calls ++ [prompt] in
    match completions_create rt (length calls) prompt with
    | ApiRaises c message => (Raises (handle rt None (Exc c message)), calls')
    | ApiReturns [] =>
        (Raises (handle rt None (Exc IndexError (lib_message rt F_no_choices))),
         calls')
    | ApiReturns (None :: _) =>
        (Raises (handle rt None
           (Exc AttributeError (lib_message rt F_none_content))), calls')
    | ApiReturns (Some content :: _) =>
        let response_text := strip content in
        let cleaned_text := _strip_markdown response_text in
        match extract rt cleaned_text with
        | Returns evaluation => (Returns evaluation, calls')
        | Raises e => (Raises (handle rt (Some cleaned_text) e), calls')
        end
    end.

(** ** [POST /evaluate-answer] *)

Definition evaluate_answer (rt : Runtime) (calls : list str)
    (request : AnswerRequest.t)
    : outcome EvaluationResponse.t * list str :=
  match strip (AnswerRequest.candidate_says request) with
  | [] =>
      (Raises (HTTPException 400 (lit "Candidate answer cannot be empty")), calls)
  | _ :: _ =>
      evaluate_with_groq rt calls
        (AnswerRequest.candidate_says request)
        (AnswerRequest.question_context request)
  end.

(** ** [POST /rank-candidates] *)

(** Body of the [for] loop, lines 254-271. *)
Definition evaluate_candidate (rt : Runtime) (calls : list str)
    (candidate : CandidateAnswer.t) : Evaluated.t * list str :=
  match evaluate_with_groq rt calls
          (CandidateAnswer.answer candidate)
          (CandidateAnswer.question_context candidate) with
  | (Returns evaluation, calls') =>
      (Evaluated.Make
         (CandidateAnswer.candidate_id candidate)
         (CandidateAnswer.answer candidate)
         (EvaluationResponse.score evaluation)
         (EvaluationResponse.summary evaluation)
         (EvaluationResponse.improvement evaluation), calls')
  | (Raises e, calls') =>
      (Evaluated.Make
         (CandidateAnswer.candidate_id candidate)
         (CandidateAnswer.answer candidate)
         0%Z
         (lit "Evaluation failed: " ++ exc_str rt e)
         (lit "Please retry evaluation"), calls')
  end.

(** The loop of lines 253-271: [evaluated_candidates] grows by one entry
    per candidate. *)
Fixpoint evaluate_all (rt : Runtime) (candidates : list CandidateAnswer.t)
    (evaluated_candidates : list Evaluated.t) (calls : list str)
    : list Evaluated.t * list str :=
  match candidates with
  | [] => (evaluated_candidates, calls)
  | candidate :: rest =>
      let (entry, calls') := evaluate_candidate rt calls candidate in
      evaluate_all rt rest (evaluated_candidates ++ [entry]) calls'
  end.

(** [list.sort(key=lambda x: x["score"], reverse=True)]: the sort of the
    standard library is stable, also with [reverse=True], which fixes its
    result; insertion from the right, before the first entry that does not
    score higher, computes it. *)
Fixpoint insert_by_score (x : Evaluated.t) (l : list Evaluated.t)
    : list Evaluated.t :=
  match l with
  | [] => [x]
  | y :: t =>
      if (Evaluated.score x <? Evaluated.score y)%Z
      then y :: insert_by_score x t
      else x :: y :: t
  end.

Definition sort_by_score_desc (l : list Evaluated.t) : list Evaluated.t :=
  fold_right insert_by_score [] l.

(** Lines 277-286: [enumerate(evaluated_candidates, 1)]. *)
Fixpoint add_ranking (idx : Z) (l : list Evaluated.t) : list RankedCandidate.t :=
  match l with
  | [] => []
  | candidate :: t =>
      RankedCandidate.Make
        (Evaluated.candidate_id candidate)
        (Evaluated.answer candidate)
        (Evaluated.score candidate)
        (Evaluated.summary candidate)
        (Evaluated.improvement candidate)
        idx
      :: add_ranking (idx + 1) t
  end.

(** Lines 251-288: everything after the guard on the empty list. *)
Definition rank_batch (rt : Runtime) (calls : list str)
    (candidates : list CandidateAnswer.t)
    : list RankedCandidate.t * list str :=
  let (evaluated_candidates, calls') := evaluate_all rt candidates [] calls in
  (add_ranking 1 (sort_by_score_desc evaluated_candidates), calls').

Definition rank_candidates (rt : Runtime) (calls : list str)
    (candidates : list CandidateAnswer.t)
    : outcome (list RankedCandidate.t) * list str :=
  match candidates with
  | [] =>
      (Raises (HTTPException 400 (lit "Candidates list cannot be empty")), calls)
  | _ :: _ =>
      let (ranked, calls') := rank_batch rt calls candidates in
      (Returns ranked, calls')
  end.

(** ** Test doubles

    A runtime that answers the n-th request with the n-th canned reply, and
    a reader for JSON texts written with single quotes in place of double
    quotes. *)

Definition jlit (s : string) : str :=
  map (fun c => if c =? 39 then 34 else c) (lit s).

(** The decimal numeral of an integer. *)
Definition decimal_text (z : Z) : str := lit (NilEmpty.string_of_int (Z.to_int z)).

Definition canned (replies : list api_response) : Runtime := {|
  groq_available := true;
  groq_import_error := [];
  completions_create := fun n _ =>
    nth n replies (ApiRaises ProviderError (lit "connection refused"));
  py_repr := fun _ => lit "<value>";
  lib_message := fun _ => lit "<library message>";
  http_str := fun status detail => decimal_text status ++ lit ": " ++ detail;
  unicode_decimal := fun _ => None;
  int_max_str_digits := 4300;
  recursion_limit := 900
|}.

Definition says (text : string) : api_response := ApiReturns [Some (jlit text)].

Definition forget_rank (c : RankedCandidate.t) : Evaluated.t :=
  Evaluated.Make
    (RankedCandidate.candidate_id c) (RankedCandidate.answer c)
    (RankedCandidate.score c) (RankedCandidate.summary c)
    (RankedCandidate.improvement c).

(** The batch of the ranking example: four candidates whose answers the
    model scores 2, 5, 5 and 1, in this order. *)
Definition four_candidates : list CandidateAnswer.t :=
  [ CandidateAnswer.Make (lit "Alice") (lit "first answer") [];
    CandidateAnswer.Make (lit "Bob") (lit "second answer") [];
    CandidateAnswer.Make (lit "Charlie") (lit "third answer") [];
    CandidateAnswer.Make (lit "Diana") (lit "fourth answer") [] ].

Definition four_replies : list api_response :=
  [ says "{'score': 2, 'summary': 'thin', 'improvement': 'add depth'}";
    says "{'score': 5, 'summary': 'complete', 'improvement': 'none needed'}";
    says "{'score': 5, 'summary': 'thorough', 'improvement': 'be shorter'}";
    says "{'score': 1, 'summary': 'off topic', 'improvement': 'answer the question'}" ].

Definition score_ge (a b : Evaluated.t) : Prop :=
  (Evaluated.score b <= Evaluated.score a)%Z.

Definition has_score (v : Z) (e : Evaluated.t) : bool :=
  (Evaluated.score e =? v)%Z.

(** The ways in which a reply may carry a JSON text [J]: bare, inside code
    fences with or without the language tag, or after a bare json token;
    white space may surround each part. *)
Definition blank (w : str) : Prop := forallb isspace w = true.


(** ** Start-up, lines 14-28

    The [try] block imports the SDK, reads the key from the environment,
    raises the ValueError of line 18 when the key is absent or empty, and
    builds the client.  An ImportError raised anywhere in the block, by the
    import or by the constructor of the client, is taken by the first
    [except] clause, which records the fixed text of line 24; any other
    exception is taken by the second clause, which records [str(exc)].  The
    result is the pair of [_GROQ_AVAILABLE] and [_GROQ_IMPORT_ERROR]; the
    latter is bound only when the former is false, and is modelled as the
    empty text otherwise.  An exception outside [Exception] (an interrupt,
    an exit) is taken by neither clause and ends the process before any
    handler exists; it leaves no runtime to describe. *)
Inductive client_result : Type :=
| ClientBuilt
| ClientImportError
| ClientRaises (message : str).

Inductive sdk_import : Type :=
| SdkMissing                                   (* the import raises ImportError *)
| SdkBroken (message : str)                    (* the import raises another exception *)
| SdkPresent (make_client : str -> client_result).

Definition sdk_not_installed : str :=
  lit "Groq SDK not installed. Run: pip install groq".

Definition startup (sdk : sdk_import) (GROQ_API_KEY : option str) : bool * str :=
  match sdk with
  | SdkMissing => (false, sdk_not_installed)
  | SdkBroken message => (false, message)
  | SdkPresent make_client =>
      match GROQ_API_KEY with
      | None | Some [] =>
          (false, lit "GROQ_API_KEY not found in environment variables")
      | Some (c :: k) =>
          match make_client (c :: k) with
          | ClientBuilt => (true, [])
          | ClientImportError => (false, sdk_not_installed)
          | ClientRaises message => (false, message)
          end
      end
  end.

(** The runtime a start-up leaves behind. *)
Definition started (rt : Runtime) (sdk : sdk_import) (GROQ_API_KEY : option str)
    : Runtime := {|
  groq_available := fst (startup sdk GROQ_API_KEY);
  groq_import_error := snd (startup sdk GROQ_API_KEY);
  completions_create := completions_create rt;
  py_repr := py_repr rt;
  lib_message := lib_message rt;
  http_str := http_str rt;
  unicode_decimal := unicode_decimal rt;
  int_max_str_digits := int_max_str_digits rt;
  recursion_limit := recursion_limit rt
|}.

(** The prompt sent for a candidate, and the entry the [except] clause of
    the ranking loop records for a failure [e]. *)
Definition request_prompt (c : CandidateAnswer.t) : str :=
  build_prompt (CandidateAnswer.answer c) (CandidateAnswer.question_context c).

Definition placeholder (rt : Runtime) (e : exception) (c : CandidateAnswer.t)
    : Evaluated.t :=
  Evaluated.Make
    (CandidateAnswer.candidate_id c) (CandidateAnswer.answer c) 0%Z
    (lit "Evaluation failed: " ++ exc_str rt e)
    (lit "Please retry evaluation").

Definition sdk_unavailable (rt : Runtime) : exception :=
  HTTPException 500 (lit "Groq SDK not available: " ++ groq_import_error rt).

Definition label_of_candidate (c : CandidateAnswer.t) : str * str :=
  (CandidateAnswer.candidate_id c, CandidateAnswer.answer c).

Definition label_of_ranked (r : RankedCandidate.t) : str * str :=
  (RankedCandidate.candidate_id r, RankedCandidate.answer r).

Definition is_suffix (t s : str) : Prop := exists a, s = a ++ t.

Definition lacks (x : char) (s : str) : Prop := forallb (fun c => negb (c =? x)) s = true.

Definition is_substring (r s : str) : Prop := exists a b, s = a ++ r ++ b.



(** A runtime whose interpreter has the limit on integer digits disabled. *)
Definition without_digit_limit (rt : Runtime) : Runtime := {|
  groq_available := groq_available rt;
  groq_import_error := groq_import_error rt;
  completions_create := completions_create rt;
  py_repr := py_repr rt;
  lib_message := lib_message rt;
  http_str := http_str rt;
  unicode_decimal := unicode_decimal rt;
  int_max_str_digits := 0;
  recursion_limit := recursion_limit rt
|}.

(** An object text with the three keys and a fourth member that holds an
    integer of 4301 digits. *)
Definition long_integer_object : str :=
  jlit "{'score': 4, 'summary': 'Good', 'improvement': 'More', 'n': "
  ++ repeat 49 4301 ++ lit "}".

(** * Properties *)

Unset Implicit Arguments.

(** ** Stripping *)

Section StripFacts.

Lemma lstrip_idem (s : str) : lstrip (lstrip s) = lstrip s.
Proof.
  induction s as [|c t IH]; simpl; trivial.
  destruct (isspace c) eqn:E; trivial.
  simpl. now rewrite E.
Qed.

Lemma lstrip_head (c : char) (t : str) :
  isspace c = false -> lstrip (c :: t) = c :: t.
Proof. intros E. simpl. now rewrite E. Qed.

Lemma lstrip_snoc (l : str) (c : char) :
  isspace c = false -> lstrip (l ++ [c]) = lstrip l ++ [c].
Proof.
  intros E. induction l as [|a l IH]; simpl.
  - now rewrite E.
  - destruct (isspace a); trivial.
Qed.

Lemma lstrip_spaces (w x : str) :
  forallb isspace w = true -> lstrip (w ++ x) = lstrip x.
Proof.
  induction w as [|a w IH]; simpl; trivial.
  intros H. apply andb_true_iff in H as [Ha Hw]. rewrite Ha. auto.
Qed.

Lemma rstrip_idem (s : str) : rstrip (rstrip s) = rstrip s.
Proof.
  unfold rstrip. now rewrite rev_involutive, lstrip_idem.
Qed.

Lemma rstrip_cons (c : char) (t : str) :
  isspace c = false -> rstrip (c :: t) = c :: rstrip t.
Proof.
  intros E. unfold rstrip. simpl.
  rewrite (lstrip_snoc _ _ E), rev_app_distr. reflexivity.
Qed.

Lemma rstrip_spaces (x w : str) :
  forallb isspace w = true -> rstrip (x ++ w) = rstrip x.
Proof.
  intros H. unfold rstrip. rewrite rev_app_distr, lstrip_spaces; trivial.
  rewrite forallb_forall in *. intros c Hc. apply H. now apply in_rev.
Qed.

Lemma rstrip_snoc (x : str) (c : char) :
  isspace c = false -> rstrip (x ++ [c]) = x ++ [c].
Proof.
  intros E. unfold rstrip. rewrite rev_app_distr. simpl. rewrite E.
  simpl. now rewrite rev_involutive.
Qed.

(** The result of [strip] has no white space at either end. *)
Lemma lstrip_strip (s : str) : lstrip (strip s) = strip s.
Proof.
  unfold strip. destruct (lstrip s) as [|c t] eqn:E.
  - reflexivity.
  - assert (Hc : isspace c = false).
    { clear -E. induction s as [|a s IH]; simpl in E; try discriminate.
      destruct (isspace a) eqn:Ea; auto. now inversion E; subst. }
    rewrite (rstrip_cons _ _ Hc). now apply lstrip_head.
Qed.

Lemma strip_idem (s : str) : strip (strip s) = strip s.
Proof.
  unfold strip at 1. rewrite lstrip_strip.
  unfold strip. apply rstrip_idem.
Qed.

End StripFacts.

(** Every result of [_strip_markdown] is a stripped text. *)
Lemma strip_fences_stripped (text : str) :
  strip text = text -> strip (strip_fences text) = strip_fences text.
Proof.
  intros H. unfold strip_fences.
  destruct (startswith text fence); trivial.
  destruct (re_search fence_pattern text) as [m|]; trivial.
  destruct (group1 m); trivial. apply strip_idem.
Qed.

Lemma strip_json_tag_stripped (text : str) :
  strip text = text -> strip (strip_json_tag text) = strip_json_tag text.
Proof.
  intros H. unfold strip_json_tag.
  destruct (startswith text (lit "json")); trivial. apply strip_idem.
Qed.

Lemma strip_markdown_stripped (text : str) :
  strip (_strip_markdown text) = _strip_markdown text.
Proof.
  unfold _strip_markdown.
  apply strip_json_tag_stripped, strip_fences_stripped, strip_idem.
Qed.

(** C4 (as amended): a second application of [_strip_markdown] changes
    nothing whenever the first result is clean, that is, begins neither
    with a code fence nor with the token json. *)
Theorem strip_markdown_idempotent_on_clean (text : str) :
  startswith (_strip_markdown text) fence = false ->
  startswith (_strip_markdown text) (lit "json") = false ->
  _strip_markdown (_strip_markdown text) = _strip_markdown text.
Proof.
  intros Hfence Htag.
  unfold _strip_markdown at 1.
  rewrite strip_markdown_stripped.
  unfold strip_fences. rewrite Hfence.
  unfold strip_json_tag. now rewrite Htag.
Qed.

Lemma strip_markdown_idempotent_on_clean_witness :
  _strip_markdown (_strip_markdown (jlit "```json
{'score': 4}
```"))
  = _strip_markdown (jlit "```json
{'score': 4}
```").
Proof.
  apply strip_markdown_idempotent_on_clean; vm_compute; reflexivity.
Defined.

(** C4 (as stated) fails: a text with two leading json tokens loses one of
    them at each application. *)
Lemma strip_markdown_not_idempotent :
  ~ (forall text : str,
       _strip_markdown (_strip_markdown text) = _strip_markdown text).
Proof.
  intros H. specialize (H (lit "jsonjson{}")).
  vm_compute in H. discriminate H.
Qed.

(** ** Extraction results *)

Ltac case_outcome H :=
  repeat match type of H with
  | context [bind ?m _] => destruct m eqn:?; simpl in H; try discriminate H
  | context [if ?b then _ else _] => destruct b eqn:?; try discriminate H
  end.

Lemma new_EvaluationResponse_inv rt k s i ev :
  new_EvaluationResponse rt k s i = Returns ev ->
  ev = EvaluationResponse.Make k s i /\ (1 <= k <= 5)%Z.
Proof.
  unfold new_EvaluationResponse, raise_lib. intros H.
  destruct ((1 <=? k)%Z && (k <=? 5)%Z) eqn:E; try discriminate H.
  apply andb_true_iff in E as [E1 E2].
  apply Z.leb_le in E1. apply Z.leb_le in E2.
  inversion H. split; [reflexivity | lia].
Qed.

Lemma build_evaluation_range rt result ev :
  build_evaluation rt result = Returns ev ->
  (1 <= EvaluationResponse.score ev <= 5)%Z.
Proof.
  unfold build_evaluation. intros H. case_outcome H.
  apply new_EvaluationResponse_inv in H as [-> Hk]. exact Hk.
Qed.

Lemma extract_range rt cleaned ev :
  extract rt cleaned = Returns ev ->
  (1 <= EvaluationResponse.score ev <= 5)%Z.
Proof.
  unfold extract. intros H. case_outcome H.
  eapply build_evaluation_range; eassumption.
Qed.

(** A value is returned only on the path through [extract]. *)
Lemma evaluate_with_groq_returns rt calls answer question_context ev calls' :
  evaluate_with_groq rt calls answer question_context = (Returns ev, calls') ->
  exists content others,
    groq_available rt = true
    /\ completions_create rt (length calls) (build_prompt answer question_context)
       = ApiReturns (Some content :: others)
    /\ extract rt (_strip_markdown (strip content)) = Returns ev
    /\ calls' = calls ++ [build_prompt answer question_context].
Proof.
  unfold evaluate_with_groq. intros H.
  destruct (groq_available rt); simpl in H; try discriminate H.
  destruct (completions_create rt (length calls) (build_prompt answer question_context))
    as [c m | [| [content|] others]] eqn:E; try discriminate H.
  destruct (extract rt (_strip_markdown (strip content))) eqn:X; try discriminate H.
  inversion H; subst. exists content, others. auto.
Qed.

Lemma evaluate_with_groq_range rt calls answer question_context ev calls' :
  evaluate_with_groq rt calls answer question_context = (Returns ev, calls') ->
  (1 <= EvaluationResponse.score ev <= 5)%Z.
Proof.
  intros H. apply evaluate_with_groq_returns in H
    as (content & others & _ & _ & X & _).
  eapply extract_range; eassumption.
Qed.

(** ** The evaluation loop *)

Lemma evaluate_all_acc rt candidates acc calls :
  evaluate_all rt candidates acc calls
  = (acc ++ fst (evaluate_all rt candidates [] calls),
     snd (evaluate_all rt candidates [] calls)).
Proof.
  revert acc calls. induction candidates as [|c l IH]; intros acc calls; simpl.
  - now rewrite app_nil_r.
  - destruct (evaluate_candidate rt calls c) as [e c1].
    rewrite (IH (acc ++ [e])), (IH [e]). simpl.
    now rewrite <- app_assoc.
Qed.

Lemma evaluate_all_cons rt c l calls :
  evaluate_all rt (c :: l) [] calls
  = (fst (evaluate_candidate rt calls c)
       :: fst (evaluate_all rt l [] (snd (evaluate_candidate rt calls c))),
     snd (evaluate_all rt l [] (snd (evaluate_candidate rt calls c)))).
Proof.
  simpl. destruct (evaluate_candidate rt calls c) as [e c1].
  now rewrite evaluate_all_acc.
Qed.

Lemma evaluate_all_app rt l1 l2 calls :
  evaluate_all rt (l1 ++ l2) [] calls
  = (fst (evaluate_all rt l1 [] calls)
       ++ fst (evaluate_all rt l2 [] (snd (evaluate_all rt l1 [] calls))),
     snd (evaluate_all rt l2 [] (snd (evaluate_all rt l1 [] calls)))).
Proof.
  revert calls. induction l1 as [|c l1 IH]; intros calls.
  - simpl. now destruct (evaluate_all rt l2 [] calls).
  - rewrite <- app_comm_cons, !evaluate_all_cons, IH. reflexivity.
Qed.

Lemma evaluate_all_length rt candidates calls :
  length (fst (evaluate_all rt candidates [] calls)) = length candidates.
Proof.
  revert calls. induction candidates as [|c l IH]; intros calls; trivial.
  rewrite evaluate_all_cons. simpl. now rewrite IH.
Qed.

Lemma evaluate_candidate_label rt calls c :
  Evaluated.candidate_id (fst (evaluate_candidate rt calls c))
    = CandidateAnswer.candidate_id c
  /\ Evaluated.answer (fst (evaluate_candidate rt calls c))
    = CandidateAnswer.answer c.
Proof.
  unfold evaluate_candidate.
  destruct (evaluate_with_groq rt calls _ _) as [[ev|e] c1]; simpl; auto.
Qed.

Lemma evaluate_all_labels rt candidates calls :
  map Evaluated.candidate_id (fst (evaluate_all rt candidates [] calls))
    = map CandidateAnswer.candidate_id candidates
  /\ map Evaluated.answer (fst (evaluate_all rt candidates [] calls))
    = map CandidateAnswer.answer candidates.
Proof.
  revert calls. induction candidates as [|c l IH]; intros calls; auto.
  rewrite evaluate_all_cons. simpl.
  destruct (evaluate_candidate_label rt calls c) as [-> ->].
  destruct (IH (snd (evaluate_candidate rt calls c))) as [-> ->]. auto.
Qed.

(** An entry scores 0 exactly when its evaluation failed. *)
Lemma evaluate_candidate_score rt calls c :
  match fst (evaluate_with_groq rt calls
               (CandidateAnswer.answer c) (CandidateAnswer.question_context c)) with
  | Raises _ => Evaluated.score (fst (evaluate_candidate rt calls c)) = 0%Z
  | Returns _ =>
      (1 <= Evaluated.score (fst (evaluate_candidate rt calls c)) <= 5)%Z
  end.
Proof.
  unfold evaluate_candidate.
  destruct (evaluate_with_groq rt calls _ _) as [[ev|e] c1] eqn:E; simpl; trivial.
  eapply evaluate_with_groq_range; eassumption.
Qed.

Lemma evaluate_all_scores rt candidates calls e :
  In e (fst (evaluate_all rt candidates [] calls)) ->
  Evaluated.score e = 0%Z \/ (1 <= Evaluated.score e <= 5)%Z.
Proof.
  revert calls. induction candidates as [|c l IH]; intros calls.
  - intros [].
  - rewrite evaluate_all_cons. simpl. intros [<- | H]; eauto.
    pose proof (evaluate_candidate_score rt calls c) as S.
    destruct (fst (evaluate_with_groq rt calls _ _)); auto.
Qed.

(** ** Sorting and ranking *)

Lemma insert_by_score_perm x l : Permutation (insert_by_score x l) (x :: l).
Proof.
  induction l as [|y t IH]; simpl; auto.
  destruct (Evaluated.score x <? Evaluated.score y)%Z; auto.
  rewrite IH. apply perm_swap.
Qed.

Lemma sort_by_score_desc_perm l : Permutation (sort_by_score_desc l) l.
Proof.
  induction l as [|x t IH]; simpl; auto.
  rewrite insert_by_score_perm. now constructor.
Qed.

Lemma insert_by_score_sorted x l :
  StronglySorted score_ge l -> StronglySorted score_ge (insert_by_score x l).
Proof.
  induction 1 as [|y t St IH Fy]; simpl.
  - repeat constructor.
  - destruct (Evaluated.score x <? Evaluated.score y)%Z eqn:E.
    + apply Z.ltb_lt in E. constructor; trivial.
      eapply Permutation_Forall.
      * symmetry. apply insert_by_score_perm.
      * constructor; trivial. unfold score_ge. lia.
    + apply Z.ltb_ge in E. constructor.
      * now constructor.
      * constructor; [exact E|].
        eapply Forall_impl; [|exact Fy]. unfold score_ge. intros; lia.
Qed.

Lemma sort_by_score_desc_sorted l : StronglySorted score_ge (sort_by_score_desc l).
Proof.
  induction l as [|x t IH]; simpl.
  - constructor.
  - now apply insert_by_score_sorted.
Qed.

(** Stability: among the entries of one score the order is untouched. *)
Lemma insert_by_score_filter v x l :
  filter (has_score v) (insert_by_score x l) = filter (has_score v) (x :: l).
Proof.
  induction l as [|y t IH]; trivial.
  simpl insert_by_score.
  destruct (Evaluated.score x <? Evaluated.score y)%Z eqn:E; trivial.
  apply Z.ltb_lt in E.
  change (filter (has_score v) (y :: insert_by_score x t))
    with (if has_score v y then y :: filter (has_score v) (insert_by_score x t)
          else filter (has_score v) (insert_by_score x t)).
  rewrite IH. simpl. unfold has_score.
  destruct (Evaluated.score y =? v)%Z eqn:Ey;
    destruct (Evaluated.score x =? v)%Z eqn:Ex; trivial.
  apply Z.eqb_eq in Ey, Ex. lia.
Qed.

Lemma sort_by_score_desc_stable v l :
  filter (has_score v) (sort_by_score_desc l) = filter (has_score v) l.
Proof.
  induction l as [|x t IH]; trivial.
  simpl sort_by_score_desc. rewrite insert_by_score_filter.
  simpl. now rewrite IH.
Qed.

(** Two sorted lists that agree on the entries of each score, order
    included, are equal: a stable sort has one possible result, so that
    [sort_by_score_desc] computes what [list.sort] returns. *)
Lemma filter_has_score_head x t :
  filter (has_score (Evaluated.score x)) (x :: t)
  = x :: filter (has_score (Evaluated.score x)) t.
Proof. simpl. unfold has_score at 1. now rewrite Z.eqb_refl. Qed.

Lemma filter_has_score_in v e l :
  In e (filter (has_score v) l) -> In e l /\ Evaluated.score e = v.
Proof.
  intros H. apply filter_In in H as [H1 H2]. split; trivial.
  now apply Z.eqb_eq.
Qed.

Lemma sorted_head_max x t e :
  StronglySorted score_ge (x :: t) -> In e (x :: t) ->
  (Evaluated.score e <= Evaluated.score x)%Z.
Proof.
  intros S [<- | H]; [lia|].
  apply StronglySorted_inv in S as [_ F].
  rewrite Forall_forall in F. exact (F e H).
Qed.

Lemma sorted_stable_unique l1 l2 :
  StronglySorted score_ge l1 -> StronglySorted score_ge l2 ->
  (forall v, filter (has_score v) l1 = filter (has_score v) l2) ->
  l1 = l2.
Proof.
  revert l2. induction l1 as [|x t1 IH]; intros l2 S1 S2 H.
  - destruct l2 as [|y t2]; trivial.
    specialize (H (Evaluated.score y)).
    rewrite filter_has_score_head in H. discriminate H.
  - destruct l2 as [|y t2].
    + specialize (H (Evaluated.score x)).
      rewrite filter_has_score_head in H. discriminate H.
    + assert (Hy : (Evaluated.score y <= Evaluated.score x)%Z).
      { apply (sorted_head_max x t1 y S1).
        apply (filter_has_score_in (Evaluated.score y)).
        rewrite H, filter_has_score_head. now left. }
      assert (Hx : (Evaluated.score x <= Evaluated.score y)%Z).
      { apply (sorted_head_max y t2 x S2).
        apply (filter_has_score_in (Evaluated.score x)).
        rewrite <- H, filter_has_score_head. now left. }
      assert (E : Evaluated.score x = Evaluated.score y) by lia.
      pose proof (H (Evaluated.score x)) as Hh.
      rewrite filter_has_score_head in Hh.
      rewrite E in Hh at 2. rewrite filter_has_score_head in Hh.
      inversion Hh; subst y. f_equal.
      apply IH.
      * now apply StronglySorted_inv in S1.
      * now apply StronglySorted_inv in S2.
      * intros v. specialize (H v). simpl in H.
        destruct (has_score v x); [now inversion H | exact H].
Qed.

Lemma stable_sort_is_sort_by_score_desc l l' :
  StronglySorted score_ge l' ->
  (forall v, filter (has_score v) l' = filter (has_score v) l) ->
  l' = sort_by_score_desc l.
Proof.
  intros S H. apply sorted_stable_unique; trivial.
  - apply sort_by_score_desc_sorted.
  - intros v. now rewrite sort_by_score_desc_stable.
Qed.

Lemma add_ranking_forget idx l : map forget_rank (add_ranking idx l) = l.
Proof.
  revert idx. induction l as [|[i a sc su im] t IH]; intros idx; simpl; trivial.
  unfold forget_rank at 1. simpl. now rewrite IH.
Qed.

Lemma add_ranking_length idx l : length (add_ranking idx l) = length l.
Proof.
  rewrite <- (add_ranking_forget idx l) at 2. now rewrite length_map.
Qed.

Lemma add_ranking_ranks n l :
  map RankedCandidate.rank (add_ranking (Z.of_nat n) l)
  = map Z.of_nat (seq n (length l)).
Proof.
  revert n. induction l as [|c t IH]; intros n; simpl; trivial.
  f_equal. rewrite <- IH. do 2 f_equal. lia.
Qed.

Lemma add_ranking_in idx l e :
  In e l ->
  exists r,
    In (RankedCandidate.Make (Evaluated.candidate_id e) (Evaluated.answer e)
          (Evaluated.score e) (Evaluated.summary e) (Evaluated.improvement e) r)
       (add_ranking idx l).
Proof.
  revert idx. induction l as [|c t IH]; intros idx; simpl.
  - intros [].
  - intros [-> | H].
    + exists idx. now left.
    + destruct (IH (idx + 1)%Z H) as [r Hr]. exists r. now right.
Qed.

Lemma add_ranking_bounds idx l p :
  In p (add_ranking idx l) ->
  (idx <= RankedCandidate.rank p)%Z /\ In (forget_rank p) l.
Proof.
  revert idx. induction l as [|[i a sc su im] t IH]; intros idx; simpl.
  - intros [].
  - intros [<- | H].
    + simpl. split; [lia | now left].
    + apply IH in H as [H1 H2]. split; [lia | now right].
Qed.

(** In a ranked list, a lower rank never goes with a lower score. *)
Lemma add_ranking_order idx l p q :
  StronglySorted score_ge l ->
  In p (add_ranking idx l) -> In q (add_ranking idx l) ->
  (RankedCandidate.rank p <= RankedCandidate.rank q)%Z ->
  (RankedCandidate.score q <= RankedCandidate.score p)%Z.
Proof.
  intros St. revert idx.
  induction St as [|[i a sc su im] t St IH Fh]; intros idx; simpl.
  - intros [].
  - intros [<- | Hp] [<- | Hq] Hr; simpl in *.
    + lia.
    + apply add_ranking_bounds in Hq as [_ Hq].
      rewrite Forall_forall in Fh. apply Fh in Hq. exact Hq.
    + apply add_ranking_bounds in Hp as [Hp _]. lia.
    + eapply IH; eassumption.
Qed.

(** ** Batch ranking *)

Lemma rank_batch_unfold rt calls candidates :
  rank_batch rt calls candidates
  = (add_ranking 1
       (sort_by_score_desc (fst (evaluate_all rt candidates [] calls))),
     snd (evaluate_all rt candidates [] calls)).
Proof.
  unfold rank_batch. now destruct (evaluate_all rt candidates [] calls).
Qed.

Lemma rank_candidates_nonempty rt calls candidates :
  candidates <> [] ->
  rank_candidates rt calls candidates
  = (Returns (fst (rank_batch rt calls candidates)),
     snd (rank_batch rt calls candidates)).
Proof.
  intros H. unfold rank_candidates.
  destruct candidates as [|c l]; [congruence|].
  now destruct (rank_batch rt calls (c :: l)).
Qed.

(** C1: a failing evaluation does not abort the batch.  When the
    evaluation of a candidate raises [e], whatever the reason, the ranked
    output is still returned, has one entry per candidate, and holds for
    that candidate a placeholder with score 0, the failure description in
    its summary, the fixed retry suggestion, and the candidate's own
    identifier and answer. *)
Theorem failed_evaluation_yields_placeholder
    rt calls before candidate after e calls_before calls_after :
  snd (evaluate_all rt before [] calls) = calls_before ->
  evaluate_with_groq rt calls_before
    (CandidateAnswer.answer candidate)
    (CandidateAnswer.question_context candidate) = (Raises e, calls_after) ->
  exists ranked calls',
    rank_candidates rt calls (before ++ candidate :: after)
      = (Returns ranked, calls')
    /\ length ranked = length (before ++ candidate :: after)
    /\ exists r,
         In (RankedCandidate.Make
               (CandidateAnswer.candidate_id candidate)
               (CandidateAnswer.answer candidate)
               0%Z
               (lit "Evaluation failed: " ++ exc_str rt e)
               (lit "Please retry evaluation")
               r) ranked.
Proof.
  intros Hb He.
  set (all := before ++ candidate :: after).
  exists (fst (rank_batch rt calls all)), (snd (rank_batch rt calls all)).
  split; [|split].
  - apply rank_candidates_nonempty. subst all. now destruct before.
  - rewrite rank_batch_unfold. cbn [fst].
    rewrite add_ranking_length.
    rewrite (Permutation_length (sort_by_score_desc_perm _)).
    apply evaluate_all_length.
  - rewrite rank_batch_unfold. cbn [fst].
    set (entry := Evaluated.Make
                    (CandidateAnswer.candidate_id candidate)
                    (CandidateAnswer.answer candidate) 0%Z
                    (lit "Evaluation failed: " ++ exc_str rt e)
                    (lit "Please retry evaluation")).
    apply (add_ranking_in 1 _ entry).
    eapply Permutation_in; [symmetry; apply sort_by_score_desc_perm|].
    subst all. rewrite evaluate_all_app. cbn [fst].
    apply in_or_app. right. rewrite Hb, evaluate_all_cons. cbn [fst].
    left. unfold evaluate_candidate. now rewrite He.
Qed.

Lemma failed_evaluation_yields_placeholder_witness :
  exists ranked calls',
    rank_candidates
      (canned [says "{'score': 3, 'summary': 'fine', 'improvement': 'more'}";
               says "I cannot grade this."])
      []
      ([CandidateAnswer.Make (lit "Alice") (lit "first answer") []]
         ++ CandidateAnswer.Make (lit "Bob") (lit "second answer") []
         :: [CandidateAnswer.Make (lit "Charlie") (lit "third answer") []])
      = (Returns ranked, calls')
    /\ length ranked = 3%nat
    /\ exists r,
         In (RankedCandidate.Make (lit "Bob") (lit "second answer") 0%Z
               (lit "Evaluation failed: "
                  ++ lit "500: Could not parse JSON from response: I cannot grade this.")
               (lit "Please retry evaluation") r) ranked.
Proof.
  eapply (failed_evaluation_yields_placeholder
            (canned [says "{'score': 3, 'summary': 'fine', 'improvement': 'more'}";
                     says "I cannot grade this."])
            []
            [CandidateAnswer.Make (lit "Alice") (lit "first answer") []]
            (CandidateAnswer.Make (lit "Bob") (lit "second answer") [])
            [CandidateAnswer.Make (lit "Charlie") (lit "third answer") []]
            (HTTPException 500
               (lit "Could not parse JSON from response: I cannot grade this."))).
  - reflexivity.
  - vm_compute. reflexivity.
Defined.

(** C2: for a non-empty batch the output is returned; it is the list of
    evaluated entries (which stand in input order) sorted by descending
    score, entries of equal score keeping their input order; the ranks are
    1, 2, ..., N whatever the ties.  For scores 2, 5, 5, 1 the two entries
    of score 5 take ranks 1 and 2 in their input order, then come the
    entry of score 2 and the entry of score 1. *)
Theorem ranking_is_stable_descending_and_dense rt calls candidates :
  candidates <> [] ->
  exists ranked calls',
    rank_candidates rt calls candidates = (Returns ranked, calls')
    /\ (let evaluated := fst (evaluate_all rt candidates [] calls) in
        map Evaluated.candidate_id evaluated
          = map CandidateAnswer.candidate_id candidates
        /\ Permutation (map forget_rank ranked) evaluated
        /\ StronglySorted score_ge (map forget_rank ranked)
        /\ (forall v, filter (has_score v) (map forget_rank ranked)
                      = filter (has_score v) evaluated)
        /\ map RankedCandidate.rank ranked
           = map Z.of_nat (seq 1 (length candidates)))
    /\ (forall a b c d,
          Evaluated.score a = 2%Z -> Evaluated.score b = 5%Z ->
          Evaluated.score c = 5%Z -> Evaluated.score d = 1%Z ->
          map (fun r => (forget_rank r, RankedCandidate.rank r))
            (add_ranking 1 (sort_by_score_desc [a; b; c; d]))
          = [(b, 1%Z); (c, 2%Z); (a, 3%Z); (d, 4%Z)])
    /\ (exists calls4,
          rank_candidates (canned four_replies) [] four_candidates
          = (Returns
               [ RankedCandidate.Make (lit "Bob") (lit "second answer") 5
                   (lit "complete") (lit "none needed") 1;
                 RankedCandidate.Make (lit "Charlie") (lit "third answer") 5
                   (lit "thorough") (lit "be shorter") 2;
                 RankedCandidate.Make (lit "Alice") (lit "first answer") 2
                   (lit "thin") (lit "add depth") 3;
                 RankedCandidate.Make (lit "Diana") (lit "fourth answer") 1
                   (lit "off topic") (lit "answer the question") 4 ]%Z,
             calls4)).
Proof.
  intros H.
  exists (fst (rank_batch rt calls candidates)),
         (snd (rank_batch rt calls candidates)).
  split; [now apply rank_candidates_nonempty|]. split.
  - rewrite rank_batch_unfold. cbn [fst].
    rewrite add_ranking_forget.
    split; [apply evaluate_all_labels|].
    split; [apply sort_by_score_desc_perm|].
    split; [apply sort_by_score_desc_sorted|].
    split; [intros v; apply sort_by_score_desc_stable|].
    change 1%Z with (Z.of_nat 1). rewrite add_ranking_ranks.
    rewrite (Permutation_length (sort_by_score_desc_perm _)).
    now rewrite evaluate_all_length.
  - split; [|eexists; vm_compute; reflexivity].
    intros a b c d Ha Hb Hc Hd.
    unfold sort_by_score_desc. cbn [fold_right insert_by_score].
    rewrite ?Ha, ?Hb, ?Hc, ?Hd. cbn [Z.ltb Z.compare Pos.compare Pos.compare_cont].
    cbn [insert_by_score]. rewrite ?Ha, ?Hb, ?Hc, ?Hd.
    cbn [Z.ltb Z.compare Pos.compare Pos.compare_cont].
    cbn [insert_by_score]. rewrite ?Ha, ?Hb, ?Hc, ?Hd.
    cbn [Z.ltb Z.compare Pos.compare Pos.compare_cont].
    destruct a, b, c, d. reflexivity.
Qed.

Lemma ranking_is_stable_descending_and_dense_witness :
  exists ranked calls',
    rank_candidates (canned four_replies) [] four_candidates
      = (Returns ranked, calls')
    /\ map RankedCandidate.rank ranked = [1; 2; 3; 4]%Z.
Proof.
  destruct (ranking_is_stable_descending_and_dense
              (canned four_replies) [] four_candidates)
    as (ranked & calls' & Hr & (_ & _ & _ & _ & Hk) & _ & _).
  - discriminate.
  - exists ranked, calls'. split; [exact Hr | exact Hk].
Defined.

(** C9: on the empty sequence the ranking body (everything after the guard
    of the handler) produces the empty sequence and sends nothing to the
    model; the rejection of an empty list is the guard at the boundary of
    the endpoint. *)
Theorem rank_batch_empty rt calls :
  rank_batch rt calls [] = ([], calls)
  /\ rank_candidates rt calls []
     = (Raises (HTTPException 400 (lit "Candidates list cannot be empty")), calls).
Proof. split; reflexivity. Qed.

(** C10: in every ranked output a placeholder (score 0, the score of an
    entry whose evaluation failed and of no other) stands strictly below
    every successfully evaluated entry (score 1 to 5). *)
Theorem placeholders_rank_below_successes rt calls candidates :
  let ranked := fst (rank_batch rt calls candidates) in
  (forall calls0 c,
      match fst (evaluate_with_groq rt calls0
                   (CandidateAnswer.answer c)
                   (CandidateAnswer.question_context c)) with
      | Raises _ => Evaluated.score (fst (evaluate_candidate rt calls0 c)) = 0%Z
      | Returns _ =>
          (1 <= Evaluated.score (fst (evaluate_candidate rt calls0 c)) <= 5)%Z
      end)
  /\ (forall p, In p ranked ->
        RankedCandidate.score p = 0%Z \/ (1 <= RankedCandidate.score p <= 5)%Z)
  /\ (forall p q, In p ranked -> In q ranked ->
        RankedCandidate.score p = 0%Z ->
        (1 <= RankedCandidate.score q)%Z ->
        (RankedCandidate.rank q < RankedCandidate.rank p)%Z).
Proof.
  intros ranked. subst ranked. rewrite rank_batch_unfold. cbn [fst].
  split; [apply evaluate_candidate_score|]. split.
  - intros p Hp. apply add_ranking_bounds in Hp as [_ Hp].
    eapply Permutation_in in Hp; [|apply sort_by_score_desc_perm].
    apply evaluate_all_scores in Hp. exact Hp.
  - intros p q Hp Hq H0 H1.
    destruct (Z.lt_ge_cases (RankedCandidate.rank q) (RankedCandidate.rank p))
      as [Hlt | Hge]; trivial.
    pose proof (add_ranking_order 1 _ p q
                  (sort_by_score_desc_sorted _) Hp Hq Hge).
    lia.
Qed.

Lemma placeholders_rank_below_successes_witness :
  (RankedCandidate.rank
     (RankedCandidate.Make (lit "Bob") (lit "second answer") 1
        (lit "weak") (lit "study") 1)
   < RankedCandidate.rank
       (RankedCandidate.Make (lit "Alice") (lit "first answer") 0
          (lit "Evaluation failed: 500: Could not parse JSON from response: nonsense")
          (lit "Please retry evaluation") 2))%Z.
Proof.
  apply (proj2 (proj2 (placeholders_rank_below_successes
           (canned [says "nonsense";
              says "{'score': 1, 'summary': 'weak', 'improvement': 'study'}"]) []
           (firstn 2 four_candidates)))).
  - vm_compute. right. left. reflexivity.
  - vm_compute. left. reflexivity.
  - reflexivity.
  - simpl. lia.
Defined.

(** ** Single evaluation *)

(** C8: a request whose [candidate_says] is empty after trimming is
    rejected with status 400; the list of requests sent to the model is
    returned as it was, and the result does not depend on the runtime. *)
Theorem empty_answer_rejected_before_model_call rt calls request :
  strip (AnswerRequest.candidate_says request) = [] ->
  evaluate_answer rt calls request
  = (Raises (HTTPException 400 (lit "Candidate answer cannot be empty")), calls).
Proof.
  intros H. unfold evaluate_answer. now rewrite H.
Qed.

Lemma empty_answer_rejected_before_model_call_witness :
  evaluate_answer (canned four_replies) []
    (AnswerRequest.Make (lit "   ") (lit "Why React?"))
  = (Raises (HTTPException 400 (lit "Candidate answer cannot be empty")), []).
Proof.
  apply empty_answer_rejected_before_model_call. vm_compute. reflexivity.
Defined.

(** C5 (as amended): an evaluation that [evaluate_with_groq] returns comes
    from a successful extraction of the model's reply and carries a score
    between 1 and 5; nothing is required of the two texts. *)
Theorem returned_evaluation_is_extracted_and_in_range
    rt calls answer question_context ev calls' :
  evaluate_with_groq rt calls answer question_context = (Returns ev, calls') ->
  (1 <= EvaluationResponse.score ev <= 5)%Z
  /\ exists content others,
       completions_create rt (length calls) (build_prompt answer question_context)
         = ApiReturns (Some content :: others)
       /\ extract rt (_strip_markdown (strip content)) = Returns ev.
Proof.
  intros H. split.
  - eapply evaluate_with_groq_range; eassumption.
  - apply evaluate_with_groq_returns in H
      as (content & others & _ & Hc & Hx & _).
    exists content, others. auto.
Qed.

Lemma returned_evaluation_is_extracted_and_in_range_witness :
  (1 <= EvaluationResponse.score
          (EvaluationResponse.Make 4 (lit "Good") (lit "Add examples")) <= 5)%Z.
Proof.
  apply (returned_evaluation_is_extracted_and_in_range
           (canned [says "```json
{'score': '4', 'summary': 'Good', 'improvement': 'Add examples'}
```"]) [] (lit "an answer") [] _
           [build_prompt (lit "an answer") []]).
  vm_compute. reflexivity.
Defined.

(** C5 (as stated) fails: a reply with empty texts is returned as an
    evaluation whose summary and improvement are empty. *)
Lemma evaluation_with_empty_texts_is_returned :
  ~ (forall rt calls request ev calls',
       evaluate_answer rt calls request = (Returns ev, calls') ->
       (1 <= EvaluationResponse.score ev <= 5)%Z
       /\ EvaluationResponse.summary ev <> []
       /\ EvaluationResponse.improvement ev <> []).
Proof.
  intros H.
  destruct (H (canned [says "{'score': 3, 'summary': '', 'improvement': ''}"])
              [] (AnswerRequest.Make (lit "an answer") [])
              (EvaluationResponse.Make 3 [] [])
              [build_prompt (lit "an answer") []]) as (_ & Hs & _).
  - vm_compute. reflexivity.
  - apply Hs. reflexivity.
Qed.

Lemma py_in_object rt k d : py_in rt k (JObject d) = Returns (dict_has d k).
Proof. reflexivity. Qed.

(** C6: when the parsed object lacks one of the keys score, summary and
    improvement, validation raises a ValueError whose message shows the
    parsed object, and the evaluation fails with it (status 500); no
    evaluation is returned. *)
Theorem missing_field_is_a_validation_failure
    rt calls answer question_context content others d :
  groq_available rt = true ->
  completions_create rt (length calls) (build_prompt answer question_context)
    = ApiReturns (Some content :: others) ->
  parse_json rt (_strip_markdown (strip content)) = Returns (JObject d) ->
  dict_has d (lit "score") = false
    \/ dict_has d (lit "summary") = false
    \/ dict_has d (lit "improvement") = false ->
  build_evaluation rt (JObject d)
    = Raises (Exc ValueError
        (lit "Missing required fields in response: " ++ py_repr rt (JObject d)))
  /\ evaluate_with_groq rt calls answer question_context
     = (Raises (HTTPException 500
          (lit "Missing required fields in response: " ++ py_repr rt (JObject d))),
        calls ++ [build_prompt answer question_context]).
Proof.
  intros Ha Hc Hp Hm.
  assert (Hb : build_evaluation rt (JObject d)
    = Raises (Exc ValueError
        (lit "Missing required fields in response: " ++ py_repr rt (JObject d)))).
  { unfold build_evaluation, missing_required.
    rewrite !py_in_object. simpl.
    destruct (dict_has d (lit "score")); simpl; trivial.
    destruct (dict_has d (lit "summary")); simpl; trivial.
    destruct (dict_has d (lit "improvement")); simpl; trivial.
    destruct Hm as [Hm | [Hm | Hm]]; discriminate Hm. }
  split; [exact Hb|].
  unfold evaluate_with_groq. rewrite Ha, Hc. simpl negb. cbv iota.
  unfold extract. rewrite Hp. simpl bind. rewrite Hb. reflexivity.
Qed.

Lemma missing_field_is_a_validation_failure_witness :
  evaluate_with_groq
    (canned [says "{'score': 4, 'summary': 'Good'}"]) [] (lit "an answer") []
  = (Raises (HTTPException 500
       (lit "Missing required fields in response: <value>")),
     [build_prompt (lit "an answer") []]).
Proof.
  refine (proj2 (missing_field_is_a_validation_failure
            (canned [says "{'score': 4, 'summary': 'Good'}"]) []
            (lit "an answer") [] (jlit "{'score': 4, 'summary': 'Good'}") []
            [(lit "score", JInt 4); (lit "summary", JString (lit "Good"))]
            _ _ _ _)).
  - reflexivity.
  - reflexivity.
  - vm_compute. reflexivity.
  - right. right. vm_compute. reflexivity.
Defined.

Lemma py_int_raises rt sv e :
  py_int rt sv = Raises e ->
  is_json_decode_error e = false
  /\ (is_value_error e = true <->
        (exists s, sv = JString s) \/ sv = JFloat S754_nan)
  /\ (is_value_error e = false <->
        sv = JNull \/ (exists l, sv = JArray l) \/ (exists m, sv = JObject m)
        \/ (exists b, sv = JFloat (S754_infinity b))).
Proof.
  unfold py_int, int_of_float, raise_lib.
  destruct sv as [ | b | n | [z|z| |z m x] | s | l | m]; intros H;
    try discriminate H.
  - inversion H; subst; simpl. repeat split; try discriminate; eauto.
    + intros [[s Hs] | Hs]; discriminate Hs.
  - inversion H; subst; simpl. repeat split; try discriminate; eauto 6.
    + intros [[s Hs] | Hs]; discriminate Hs.
  - inversion H; subst; simpl. repeat split; try discriminate; eauto.
    intros [Hs | [[l Hs] | [[m Hs] | [b Hs]]]]; discriminate Hs.
  - destruct (int_of_str rt s); inversion H; subst; simpl;
      repeat split; try discriminate; eauto;
      intros [Hs | [[l Hs] | [[m Hs] | [b Hs]]]]; discriminate Hs.
  - inversion H; subst; simpl. repeat split; try discriminate; eauto 6.
    + intros [[s Hs] | Hs]; discriminate Hs.
  - inversion H; subst; simpl. repeat split; try discriminate; eauto 6.
    + intros [[s Hs] | Hs]; discriminate Hs.
Qed.

Lemma dict_get_has d k v : dict_get d k = Some v -> dict_has d k = true.
Proof. unfold dict_has. now intros ->. Qed.

(** C7 (as amended): when the parsed object has the three keys and [int]
    fails on the score, the evaluation fails with status 500.  A score that
    [int] rejects with a ValueError (a string that is no integer literal, a
    NaN) takes the same handler as a missing field: the detail is the
    message of the ValueError.  A score of a type that [int] does not take
    (null, array, object) or an infinite float raises another kind of
    exception, which the last handler reports as a Groq API error.  The
    failure is never reported as a JSON parse failure. *)
Theorem score_coercion_failure_kinds
    rt calls answer question_context content others d sv e :
  groq_available rt = true ->
  completions_create rt (length calls) (build_prompt answer question_context)
    = ApiReturns (Some content :: others) ->
  parse_json rt (_strip_markdown (strip content)) = Returns (JObject d) ->
  dict_get d (lit "score") = Some sv ->
  dict_has d (lit "summary") = true ->
  dict_has d (lit "improvement") = true ->
  py_int rt sv = Raises e ->
  build_evaluation rt (JObject d) = Raises e
  /\ fst (evaluate_with_groq rt calls answer question_context)
     = Raises (HTTPException 500
         (if is_value_error e then exc_str rt e
          else lit "Groq API error: " ++ exc_str rt e))
  /\ is_json_decode_error e = false
  /\ (is_value_error e = true <->
        (exists s, sv = JString s) \/ sv = JFloat S754_nan)
  /\ (is_value_error e = false <->
        sv = JNull \/ (exists l, sv = JArray l) \/ (exists m, sv = JObject m)
        \/ (exists b, sv = JFloat (S754_infinity b))).
Proof.
  intros Ha Hc Hp Hs Hsum Himp He.
  assert (Hb : build_evaluation rt (JObject d) = Raises e).
  { unfold build_evaluation, missing_required.
    rewrite !py_in_object, (dict_get_has _ _ _ Hs), Hsum, Himp. simpl.
    rewrite Hs. simpl. rewrite He. reflexivity. }
  destruct (py_int_raises _ _ _ He) as (Hj & Hv & Hn).
  split; [exact Hb|].
  split; [|split; [exact Hj|split; [exact Hv|exact Hn]]].
  unfold evaluate_with_groq. rewrite Ha, Hc. simpl negb. cbv iota.
  unfold extract. rewrite Hp. simpl bind. rewrite Hb. cbn [fst].
  unfold handle. rewrite Hj. now destruct (is_value_error e).
Qed.

Lemma score_coercion_failure_kinds_witness :
  fst (evaluate_with_groq
         (canned [says "{'score': 'high', 'summary': 'Good', 'improvement': 'More'}"])
         [] (lit "an answer") [])
  = Raises (HTTPException 500 (lit "<library message>")).
Proof.
  refine (proj1 (proj2 (score_coercion_failure_kinds
            (canned [says "{'score': 'high', 'summary': 'Good', 'improvement': 'More'}"])
            [] (lit "an answer") []
            (jlit "{'score': 'high', 'summary': 'Good', 'improvement': 'More'}") []
            [(lit "score", JString (lit "high"));
             (lit "summary", JString (lit "Good"));
             (lit "improvement", JString (lit "More"))]
            (JString (lit "high"))
            (Exc ValueError (lit "<library message>"))
            _ _ _ _ _ _ _))).
  - reflexivity.
  - reflexivity.
  - vm_compute. reflexivity.
  - vm_compute. reflexivity.
  - vm_compute. reflexivity.
  - vm_compute. reflexivity.
  - vm_compute. reflexivity.
Defined.

(** C7 (as stated) fails: with a null score the coercion raises a
    TypeError, not a ValueError, and the failure is reported as a Groq API
    error, unlike a missing field. *)
Lemma null_score_is_reported_as_api_error :
  ~ (forall rt calls answer question_context content others d sv e,
       groq_available rt = true ->
       completions_create rt (length calls) (build_prompt answer question_context)
         = ApiReturns (Some content :: others) ->
       parse_json rt (_strip_markdown (strip content)) = Returns (JObject d) ->
       dict_get d (lit "score") = Some sv ->
       dict_has d (lit "summary") = true ->
       dict_has d (lit "improvement") = true ->
       py_int rt sv = Raises e ->
       exists ve,
         is_value_error ve = true
         /\ build_evaluation rt (JObject d) = Raises ve
         /\ fst (evaluate_with_groq rt calls answer question_context)
            = Raises (HTTPException 500 (exc_str rt ve))).
Proof.
  intros H.
  destruct (H (canned [says "{'score': null, 'summary': 'Good', 'improvement': 'More'}"])
              [] (lit "an answer") []
              (jlit "{'score': null, 'summary': 'Good', 'improvement': 'More'}") []
              [(lit "score", JNull);
               (lit "summary", JString (lit "Good"));
               (lit "improvement", JString (lit "More"))]
              JNull
              (Exc TypeError (lit "<library message>")))
    as (ve & Hv & Hb & _); try (vm_compute; reflexivity).
  vm_compute in Hb. inversion Hb; subst. discriminate Hv.
Qed.

(** ** Matching the fence pattern *)

Lemma startswith_app p x : startswith (p ++ x) p = true.
Proof.
  induction p as [|a p IH]; cbn [app startswith]; trivial.
  now rewrite N.eqb_refl.
Qed.

Lemma skipn_length_app (p x : str) : skipn (length p) (p ++ x) = x.
Proof. induction p; simpl; trivial. Qed.

Lemma firstn_length_app (J y : str) :
  firstn (length (J ++ y) - length y) (J ++ y) = J.
Proof.
  rewrite length_app, Nat.add_sub.
  rewrite firstn_app, Nat.sub_diag, firstn_all. simpl. apply app_nil_r.
Qed.

Lemma contains_startswith s p : startswith s p = true -> contains s p = true.
Proof. intros H. destruct s; simpl; rewrite H; reflexivity. Qed.

Lemma contains_app_r a b p : contains b p = true -> contains (a ++ b) p = true.
Proof.
  intros H. induction a as [|x a IH]; simpl; trivial.
  rewrite IH. apply orb_true_r.
Qed.

Lemma re_search_at r s m : re_match_at r s = Some m -> re_search r s = Some m.
Proof. intros H. destruct s; simpl; rewrite H; reflexivity. Qed.

Section StarFacts.
Variable A : Type.
Variable k : str -> option A.

(** A greedy star over white space, in front of a text that does not
    begin with white space, hands that text to its continuation first. *)
Lemma star_blank w x m :
  blank w -> lstrip x = x -> k x = Some m ->
  star isspace k (w ++ x) = Some m.
Proof.
  intros Hw Hx Hk. induction w as [|a w IH]; simpl.
  - destruct x as [|c t]; simpl; trivial.
    destruct (isspace c) eqn:E; trivial.
    exfalso. simpl in Hx. rewrite E in Hx.
    assert (L : (length (lstrip t) <= length t)%nat).
    { clear. induction t as [|b t IH]; simpl; trivial.
      destruct (isspace b); simpl; lia. }
    rewrite Hx in L. simpl in L. lia.
  - unfold blank in Hw. simpl in Hw.
    apply andb_true_iff in Hw as [Ha Hw]. rewrite Ha.
    now rewrite (IH Hw).
Qed.

(** It fails when the continuation fails wherever the star may stop. *)
Lemma star_none t :
  (forall a t', t = a ++ t' -> blank a -> k t' = None) ->
  star isspace k t = None.
Proof.
  induction t as [|x t IH]; intros H; simpl.
  - apply (H [] []); reflexivity.
  - assert (H0 : k (x :: t) = None) by (apply (H [] (x :: t)); reflexivity).
    destruct (isspace x) eqn:E; trivial.
    rewrite IH; trivial.
    intros a t' -> Ha. apply (H (x :: a) t'); trivial.
    unfold blank. simpl. now rewrite E.
Qed.

(** A lazy star over any character stops at the first place where the
    continuation succeeds. *)
Lemma star_lazy_skip J y :
  (forall a b, J = a ++ b -> b <> [] -> k (b ++ y) = None) ->
  star_lazy any_char k (J ++ y) = star_lazy any_char k y.
Proof.
  induction J as [|c J IH]; intros H; trivial.
  assert (H0 : k (c :: J ++ y) = None).
  { apply (H [] (c :: J)); [reflexivity | discriminate]. }
  simpl app. simpl star_lazy. rewrite H0.
  unfold any_char at 1. apply IH.
  intros a b -> Hb. apply (H (c :: a) b); trivial.
Qed.

Lemma star_lazy_here y m : k y = Some m -> star_lazy any_char k y = Some m.
Proof. intros H. destruct y; simpl; rewrite H; reflexivity. Qed.
End StarFacts.

(** No fence begins inside a text that contains none and ends with a
    closing brace. *)
Lemma last_of_suffix (l a b : str) (c : char) :
  l ++ [c] = a ++ b -> b <> [] -> exists b0, b = b0 ++ [c].
Proof.
  intros H Hb. destruct (exists_last Hb) as (b0 & c' & ->).
  rewrite app_assoc in H. apply app_inj_tail in H as [_ ->]. now exists b0.
Qed.

Lemma no_fence_inside (l a b y : str) :
  contains (l ++ [125]) fence = false ->
  l ++ [125] = a ++ b -> b <> [] ->
  startswith (b ++ y) fence = false.
Proof.
  intros Hc Hs Hb.
  destruct (last_of_suffix _ _ _ _ Hs Hb) as [b0 ->].
  destruct (startswith ((b0 ++ [125]) ++ y) fence) eqn:E; trivial.
  exfalso.
  destruct b0 as [|x1 [|x2 [|x3 b1]]].
  - vm_compute in E. discriminate E.
  - simpl in E. rewrite andb_false_r in E. discriminate E.
  - simpl in E. rewrite !andb_false_r in E. discriminate E.
  - assert (S : startswith ((x1 :: x2 :: x3 :: b1) ++ [125]) fence = true).
    { simpl in E |- *. exact E. }
    apply contains_startswith in S.
    apply (contains_app_r a) in S.
    assert (S' : contains (l ++ [125]) fence = true) by (rewrite Hs; exact S).
    congruence.
Qed.

Lemma blank_prefix (b0 y a t : str) (c : char) :
  b0 ++ c :: y = a ++ t -> blank a -> isspace c = false ->
  exists b1, b0 = a ++ b1 /\ t = b1 ++ c :: y.
Proof.
  revert b0. induction a as [|x a IH]; intros b0 H Ha Hc.
  - exists b0. auto.
  - unfold blank in Ha. simpl in Ha. apply andb_true_iff in Ha as [Hx Ha].
    destruct b0 as [|z b0]; simpl in H; inversion H; subst.
    + congruence.
    + destruct (IH b0 H2 Ha Hc) as (b1 & -> & ->). exists b1. auto.
Qed.

Lemma exec_fence_body (A : Type) s g (k : str -> option str -> option A) :
  exec fence_body s g k
  = star isspace
      (fun t =>
         star_lazy any_char
           (fun t1 =>
              star isspace
                (fun t2 =>
                   if startswith t2 fence
                   then k (skipn (length fence) t2)
                          (Some (firstn (length t - length t1) t))
                   else None) t1) t) s.
Proof. reflexivity. Qed.


Lemma star_some (A : Type) c (k : str -> option A) s m :
  star c k s = Some m -> exists t, k t = Some m.
Proof.
  induction s as [|x s IH]; simpl; intros H; eauto.
  destruct (c x); eauto.
  destruct (star c k s) eqn:E; eauto.
Qed.

Lemma star_lazy_some (A : Type) c (k : str -> option A) s m :
  star_lazy c k s = Some m -> exists t, k t = Some m.
Proof.
  induction s as [|x s IH]; simpl; intros H.
  - destruct (k []) eqn:E; inversion H; subst; eauto.
  - destruct (k (x :: s)) eqn:E.
    + inversion H; subst; eauto.
    + destruct (c x); [now apply IH | discriminate H].
Qed.

(** Group 1 takes part in every match of the fence pattern, so that
    [match.group(1)] in [_strip_markdown] is always a string. *)
Lemma fence_match_captures s m :
  re_search fence_pattern s = Some m -> exists g, group1 m = Some g.
Proof.
  assert (At : forall t, re_match_at fence_pattern t = Some m ->
                         exists g, group1 m = Some g).
  { intros t. unfold re_match_at, fence_pattern. cbn [exec].
    intros H.
    assert (B : forall u g0,
      exec fence_body u g0
        (fun t0 g => Some (MkMatch (firstn (length t - length t0) t) g))
        = Some m -> exists g, group1 m = Some g).
    { intros u g0 Hb. rewrite exec_fence_body in Hb.
      apply star_some in Hb as [t1 Hb].
      apply star_lazy_some in Hb as [t2 Hb].
      apply star_some in Hb as [t3 Hb].
      destruct (startswith t3 fence); inversion Hb; subst. simpl. eauto. }
    destruct (startswith t fence); try discriminate H.
    destruct (startswith (skipn (length fence) t) (lit "json")).
    - match type of H with
      | match ?e with _ => _ end = _ => destruct e eqn:E
      end.
      + inversion H; subst. eapply B; exact E.
      + eapply B; exact H.
    - eapply B; exact H. }
  induction s as [|x s IH]; simpl; intros H.
  - discriminate H.
  - destruct (re_match_at fence_pattern (x :: s)) eqn:E.
    + inversion H; subst. eapply At; eassumption.
    + now apply IH.
Qed.

Lemma not_json_after_blank w x :
  blank w -> startswith x (lit "json") = false ->
  startswith (w ++ x) (lit "json") = false.
Proof.
  intros Hw Hx. destruct w as [|c w]; trivial.
  unfold blank in Hw. simpl in Hw. apply andb_true_iff in Hw as [Hc _].
  change (lit "json") with (106 :: lit "son").
  cbn [app startswith].
  destruct (106 =? c) eqn:E; trivial.
  apply N.eqb_eq in E. subst c. vm_compute in Hc. discriminate Hc.
Qed.


Lemma strip_between w0 w1 c t :
  blank w0 -> blank w1 -> isspace c = false -> rstrip (c :: t) = c :: t ->
  strip (w0 ++ (c :: t) ++ w1) = c :: t.
Proof.
  intros H0 H1 Hc Hr. unfold strip.
  rewrite lstrip_spaces by exact H0.
  cbn [app]. rewrite (lstrip_head _ _ Hc).
  change (c :: t ++ w1) with ((c :: t) ++ w1).
  now rewrite rstrip_spaces.
Qed.

Lemma strip_text_between (w0 w1 X t u : str) (c d : char) :
  X = c :: t -> X = u ++ [d] ->
  blank w0 -> blank w1 -> isspace c = false -> isspace d = false ->
  strip (w0 ++ X ++ w1) = X.
Proof.
  intros Hc Hd H0 H1 Ec Ed.
  assert (R : rstrip X = X) by (rewrite Hd; now apply rstrip_snoc).
  rewrite Hc in R |- *. now apply strip_between.
Qed.





(** ** Decoding the object text written with the usual separators *)















(** The condition on the decoder cannot be dropped: the object text
    with a member of 4301 digits is refused by [json.loads] under the
    default limit of 4300 digits on integer texts, and the bare reply fails
    with status 500, while the same reply is recovered when the limit is
    disabled. *)
Lemma bare_reply_with_long_integer_is_refused :
  evaluate_with_groq (canned [ApiReturns [Some long_integer_object]])
    [] (lit "an answer") []
  = (Raises (HTTPException 500
       (lib_message (canned [ApiReturns [Some long_integer_object]])
          F_int_digits)),
     [build_prompt (lit "an answer") []])
  /\ fst (evaluate_with_groq
            (without_digit_limit (canned [ApiReturns [Some long_integer_object]]))
            [] (lit "an answer") [])
     = Returns (EvaluationResponse.Make 4 (lit "Good") (lit "More")).
Proof. split; vm_compute; reflexivity. Qed.

(** * Further properties of the handlers *)

(** ** The ranking loop *)

Lemma evaluate_with_groq_unavailable rt calls answer question_context :
  groq_available rt = false ->
  evaluate_with_groq rt calls answer question_context
  = (Raises (sdk_unavailable rt), calls).
Proof. intros H. unfold evaluate_with_groq. now rewrite H. Qed.

Lemma evaluate_all_unavailable rt calls candidates :
  groq_available rt = false ->
  evaluate_all rt candidates [] calls
  = (map (placeholder rt (sdk_unavailable rt)) candidates, calls).
Proof.
  intros H. revert calls.
  induction candidates as [|c l IH]; intros calls; trivial.
  rewrite evaluate_all_cons. unfold evaluate_candidate.
  rewrite evaluate_with_groq_unavailable by exact H.
  cbn [fst snd]. now rewrite IH.
Qed.

Lemma insert_by_score_level x l :
  Forall (fun e => Evaluated.score e = Evaluated.score x) l ->
  insert_by_score x l = x :: l.
Proof.
  intros F. destruct l as [|y t]; trivial.
  apply Forall_inv in F. simpl. rewrite F, Z.ltb_irrefl. reflexivity.
Qed.

(** A list of entries that all have the same score is left in its order. *)
Lemma sort_by_score_desc_level v l :
  Forall (fun e => Evaluated.score e = v) l -> sort_by_score_desc l = l.
Proof.
  induction 1 as [|x t Hx F IH]; trivial.
  simpl. fold (sort_by_score_desc t). rewrite IH.
  apply insert_by_score_level.
  eapply Forall_impl; [|exact F]. intros e He. congruence.
Qed.

(** X1: when the SDK is not available, ranking a batch sends nothing to
    the model and returns every candidate as a placeholder carrying the
    start-up error, in input order, with ranks 1 to N. *)
Theorem unavailable_sdk_ranks_placeholders_in_input_order rt calls candidates :
  groq_available rt = false ->
  map forget_rank (fst (rank_batch rt calls candidates))
    = map (placeholder rt (sdk_unavailable rt)) candidates
  /\ map RankedCandidate.rank (fst (rank_batch rt calls candidates))
     = map Z.of_nat (seq 1 (length candidates))
  /\ snd (rank_batch rt calls candidates) = calls.
Proof.
  intros H. rewrite rank_batch_unfold.
  rewrite evaluate_all_unavailable by exact H. cbn [fst snd].
  rewrite (sort_by_score_desc_level 0).
  - rewrite add_ranking_forget. change 1%Z with (Z.of_nat 1).
    rewrite add_ranking_ranks, length_map. auto.
  - apply Forall_forall. intros e He.
    apply in_map_iff in He as (c & <- & _). reflexivity.
Qed.

Lemma unavailable_sdk_ranks_placeholders_in_input_order_witness :
  map RankedCandidate.candidate_id
    (fst (rank_batch (started (canned four_replies) SdkMissing None) []
            four_candidates))
  = [lit "Alice"; lit "Bob"; lit "Charlie"; lit "Diana"].
Proof.
  pose proof (unavailable_sdk_ranks_placeholders_in_input_order
                (started (canned four_replies) SdkMissing None) []
                four_candidates eq_refl) as (H & _ & _).
  apply (f_equal (map Evaluated.candidate_id)) in H.
  rewrite map_map in H. exact H.
Defined.

Lemma evaluate_with_groq_calls rt calls answer question_context :
  groq_available rt = true ->
  snd (evaluate_with_groq rt calls answer question_context)
  = calls ++ [build_prompt answer question_context].
Proof.
  intros H. unfold evaluate_with_groq. rewrite H. simpl negb. cbv iota.
  destruct (completions_create rt (length calls)
              (build_prompt answer question_context))
    as [c m | [| [content|] others]]; trivial.
  now destruct (extract rt (_strip_markdown (strip content))).
Qed.

Lemma evaluate_candidate_calls rt calls c :
  snd (evaluate_candidate rt calls c)
  = snd (evaluate_with_groq rt calls
           (CandidateAnswer.answer c) (CandidateAnswer.question_context c)).
Proof.
  unfold evaluate_candidate.
  now destruct (evaluate_with_groq rt calls _ _) as [[ev|e] c1].
Qed.

(** X2: when the SDK is available, ranking a batch sends exactly one
    prompt per candidate, in input order, whatever the replies are. *)
Theorem batch_sends_one_prompt_per_candidate rt calls candidates :
  groq_available rt = true ->
  snd (rank_batch rt calls candidates)
  = calls ++ map request_prompt candidates.
Proof.
  intros H. rewrite rank_batch_unfold. cbn [snd]. revert calls.
  induction candidates as [|c l IH]; intros calls.
  - simpl. now rewrite app_nil_r.
  - rewrite evaluate_all_cons. cbn [snd].
    rewrite IH, evaluate_candidate_calls, evaluate_with_groq_calls by exact H.
    rewrite <- app_assoc. reflexivity.
Qed.

Lemma batch_sends_one_prompt_per_candidate_witness :
  snd (rank_batch (canned [says "nonsense"; ApiRaises ProviderError []]) []
         (firstn 2 four_candidates))
  = [] ++ map request_prompt (firstn 2 four_candidates).
Proof.
  apply batch_sends_one_prompt_per_candidate. reflexivity.
Defined.

Lemma evaluate_all_label_pairs rt candidates calls :
  map (fun e => (Evaluated.candidate_id e, Evaluated.answer e))
    (fst (evaluate_all rt candidates [] calls))
  = map label_of_candidate candidates.
Proof.
  revert calls. induction candidates as [|c l IH]; intros calls; trivial.
  rewrite evaluate_all_cons. cbn [fst map].
  destruct (evaluate_candidate_label rt calls c) as [-> ->].
  now rewrite IH.
Qed.

(** X3: the ranked output carries the identifier and answer pairs of the
    input, each as often as the input has it: no candidate is lost,
    repeated or altered, whichever evaluations fail. *)
Theorem ranking_keeps_every_candidate rt calls candidates :
  Permutation
    (map label_of_ranked (fst (rank_batch rt calls candidates)))
    (map label_of_candidate candidates).
Proof.
  rewrite rank_batch_unfold. cbn [fst].
  rewrite <- (evaluate_all_label_pairs rt candidates calls).
  set (evs := fst (evaluate_all rt candidates [] calls)).
  replace (map label_of_ranked (add_ranking 1 (sort_by_score_desc evs)))
    with (map (fun e => (Evaluated.candidate_id e, Evaluated.answer e))
            (map forget_rank (add_ranking 1 (sort_by_score_desc evs))))
    by (rewrite map_map; reflexivity).
  rewrite add_ranking_forget.
  apply Permutation_map, sort_by_score_desc_perm.
Qed.

(** X4: [evaluate_answer] sends one request, carrying the answer as it
    was received (not trimmed), when the answer is not blank and the SDK is
    available; in every other case it sends none. *)
Theorem evaluate_answer_sends_at_most_one_request rt calls request :
  snd (evaluate_answer rt calls request)
  = match strip (AnswerRequest.candidate_says request) with
    | [] => calls
    | _ :: _ =>
        if groq_available rt
        then calls ++ [build_prompt (AnswerRequest.candidate_says request)
                         (AnswerRequest.question_context request)]
        else calls
    end.
Proof.
  unfold evaluate_answer.
  destruct (strip (AnswerRequest.candidate_says request)); trivial.
  destruct (groq_available rt) eqn:H.
  - now apply evaluate_with_groq_calls.
  - now rewrite evaluate_with_groq_unavailable.
Qed.

(** ** Failures of a single evaluation *)

Lemma handle_bound rt cleaned e :
  exists detail, handle rt (Some cleaned) e = HTTPException 500 detail.
Proof.
  unfold handle.
  destruct (is_json_decode_error e); [eauto|].
  destruct (is_value_error e); eauto.
Qed.

(** X5: every failure of [evaluate_with_groq] is an HTTPException of
    status 500, with one exception: when the call to the SDK itself raises
    a JSONDecodeError, the first handler reads the still unbound variable
    [cleaned_text] and an UnboundLocalError leaves the function instead. *)
Theorem failures_are_status_500_or_unbound_local
    rt calls answer question_context e calls' :
  evaluate_with_groq rt calls answer question_context = (Raises e, calls') ->
  (exists detail, e = HTTPException 500 detail)
  \/ (exists message,
        completions_create rt (length calls) (build_prompt answer question_context)
          = ApiRaises JSONDecodeError message
        /\ e = Exc UnboundLocalError (lib_message rt F_unbound_cleaned_text)).
Proof.
  unfold evaluate_with_groq. intros H.
  destruct (groq_available rt); simpl in H.
  2: { inversion H; subst. left. eauto. }
  destruct (completions_create rt (length calls)
              (build_prompt answer question_context))
    as [c m | [| [content|] others]] eqn:E.
  - inversion H; subst.
    destruct c; simpl; try (left; eexists; reflexivity).
    right. exists m. split; reflexivity.
  - inversion H; subst. left. eexists. reflexivity.
  - destruct (extract rt (_strip_markdown (strip content))) as [ev|e0];
      inversion H; subst.
    left. apply handle_bound.
  - inversion H; subst. left. eexists. reflexivity.
Qed.

Lemma failures_are_status_500_or_unbound_local_witness :
  (exists detail,
     Exc UnboundLocalError (lit "<library message>") = HTTPException 500 detail)
  \/ (exists message,
        completions_create (canned [ApiRaises JSONDecodeError (lit "bad body")])
          (length (@nil str)) (build_prompt (lit "an answer") [])
          = ApiRaises JSONDecodeError message
        /\ Exc UnboundLocalError (lit "<library message>")
           = Exc UnboundLocalError
               (lib_message (canned [ApiRaises JSONDecodeError (lit "bad body")])
                  F_unbound_cleaned_text)).
Proof.
  apply (failures_are_status_500_or_unbound_local
           (canned [ApiRaises JSONDecodeError (lit "bad body")]) []
           (lit "an answer") [] _ [build_prompt (lit "an answer") []]).
  vm_compute. reflexivity.
Defined.

(** X6: started without a key in the environment (unset or empty), the
    service never marks the SDK available: every evaluation fails with
    status 500 and sends nothing to the model.  The detail names the key
    (the ValueError of line 18) when the SDK imports, gives the text of
    line 24 when the import raises an ImportError, and the text of the
    exception when the import raises anything else.  The SDK counts as
    available exactly when it imports, the key is not empty and the
    constructor of the client returns. *)
Theorem missing_api_key_fails_every_evaluation
    rt sdk key calls answer question_context :
  key = None \/ key = Some [] ->
  evaluate_with_groq (started rt sdk key) calls answer question_context
  = (Raises (HTTPException 500
       (lit "Groq SDK not available: "
          ++ match sdk with
             | SdkMissing => lit "Groq SDK not installed. Run: pip install groq"
             | SdkBroken message => message
             | SdkPresent _ =>
                 lit "GROQ_API_KEY not found in environment variables"
             end)),
     calls)
  /\ (forall sdk' k,
        fst (startup sdk' k) = true <->
        exists make c t,
          sdk' = SdkPresent make /\ k = Some (c :: t)
          /\ make (c :: t) = ClientBuilt).
Proof.
  intros Hk. split.
  - rewrite evaluate_with_groq_unavailable.
    + unfold sdk_unavailable.
      destruct sdk; destruct Hk as [-> | ->]; reflexivity.
    + destruct sdk; destruct Hk as [-> | ->]; reflexivity.
  - intros sdk' k. split.
    + destruct sdk' as [|message|make]; simpl; try discriminate.
      destruct k as [[|c t]|]; simpl; try discriminate.
      destruct (make (c :: t)) eqn:E; simpl; try discriminate.
      intros _. exists make, c, t. auto.
    + intros (make & c & t & -> & -> & E). simpl. now rewrite E.
Qed.

Lemma missing_api_key_fails_every_evaluation_witness :
  evaluate_with_groq
    (started (canned four_replies) (SdkPresent (fun _ => ClientBuilt)) (Some []))
    [] (lit "an answer") []
  = (Raises (HTTPException 500
       (lit "Groq SDK not available: "
          ++ lit "GROQ_API_KEY not found in environment variables")),
     []).
Proof.
  apply (proj1 (missing_api_key_fails_every_evaluation
                  (canned four_replies) (SdkPresent (fun _ => ClientBuilt))
                  (Some []) [] (lit "an answer") [] (or_intror eq_refl))).
Defined.

Lemma evaluate_with_groq_extract rt calls answer question_context content others :
  groq_available rt = true ->
  completions_create rt (length calls) (build_prompt answer question_context)
    = ApiReturns (Some content :: others) ->
  evaluate_with_groq rt calls answer question_context
  = (match extract rt (_strip_markdown (strip content)) with
     | Returns ev => Returns ev
     | Raises e => Raises (handle rt (Some (_strip_markdown (strip content))) e)
     end,
     calls ++ [build_prompt answer question_context]).
Proof.
  intros Ha Hc. unfold evaluate_with_groq. rewrite Ha, Hc. simpl negb. cbv iota.
  now destruct (extract rt (_strip_markdown (strip content))).
Qed.

Lemma build_evaluation_object rt d sv su im :
  dict_get d (lit "score") = Some sv ->
  dict_get d (lit "summary") = Some su ->
  dict_get d (lit "improvement") = Some im ->
  build_evaluation rt (JObject d)
  = bind (py_int rt sv)
      (fun k => new_EvaluationResponse rt k (py_str rt su) (py_str rt im)).
Proof.
  intros Hs Hsu Him. unfold build_evaluation, missing_required.
  rewrite !py_in_object.
  rewrite (dict_get_has _ _ _ Hs), (dict_get_has _ _ _ Hsu),
    (dict_get_has _ _ _ Him). simpl.
  rewrite Hs, Hsu, Him. simpl.
  now destruct (py_int rt sv).
Qed.

(** X7: a score that [int] reads as an integer outside 1..5 is never
    returned: the constructor of [EvaluationResponse] rejects it and the
    evaluation fails with status 500 and the text of the validation
    error. *)
Theorem out_of_range_score_is_rejected
    rt calls answer question_context content others d sv su im k :
  groq_available rt = true ->
  completions_create rt (length calls) (build_prompt answer question_context)
    = ApiReturns (Some content :: others) ->
  parse_json rt (_strip_markdown (strip content)) = Returns (JObject d) ->
  dict_get d (lit "score") = Some sv ->
  dict_get d (lit "summary") = Some su ->
  dict_get d (lit "improvement") = Some im ->
  py_int rt sv = Returns k ->
  (k < 1 \/ 5 < k)%Z ->
  evaluate_with_groq rt calls answer question_context
  = (Raises (HTTPException 500 (lib_message rt (F_validation k))),
     calls ++ [build_prompt answer question_context]).
Proof.
  intros Ha Hc Hp Hs Hsu Him Hi Hk.
  rewrite (evaluate_with_groq_extract _ _ _ _ _ _ Ha Hc).
  unfold extract. rewrite Hp. simpl bind.
  rewrite (build_evaluation_object rt d sv su im Hs Hsu Him), Hi. simpl bind.
  unfold new_EvaluationResponse.
  replace ((1 <=? k)%Z && (k <=? 5)%Z) with false; trivial.
  symmetry. apply andb_false_iff.
  destruct Hk; [left; apply Z.leb_gt | right; apply Z.leb_gt]; lia.
Qed.

Lemma out_of_range_score_is_rejected_witness :
  evaluate_with_groq
    (canned [says "{'score': 7, 'summary': 'Great', 'improvement': 'None'}"])
    [] (lit "an answer") []
  = (Raises (HTTPException 500 (lit "<library message>")),
     [] ++ [build_prompt (lit "an answer") []]).
Proof.
  apply (out_of_range_score_is_rejected
           (canned [says "{'score': 7, 'summary': 'Great', 'improvement': 'None'}"])
           [] (lit "an answer") []
           (jlit "{'score': 7, 'summary': 'Great', 'improvement': 'None'}") []
           [(lit "score", JInt 7);
            (lit "summary", JString (lit "Great"));
            (lit "improvement", JString (lit "None"))]
           (JInt 7) (JString (lit "Great")) (JString (lit "None")) 7).
  - reflexivity.
  - reflexivity.
  - vm_compute. reflexivity.
  - vm_compute. reflexivity.
  - vm_compute. reflexivity.
  - vm_compute. reflexivity.
  - reflexivity.
  - right. lia.
Defined.

(** ** What validation accepts *)

Lemma dict_has_get d k : dict_has d k = true -> exists v, dict_get d k = Some v.
Proof. unfold dict_has. destruct (dict_get d k); [eauto | discriminate]. Qed.

Lemma build_evaluation_returns_object rt result ev :
  build_evaluation rt result = Returns ev -> exists d, result = JObject d.
Proof.
  unfold build_evaluation, missing_required, py_in, py_getitem, raise_lib.
  destruct result as [ | b | n | f | s | l | d]; simpl; try discriminate; eauto.
  - destruct (contains s (lit "score")); simpl; try discriminate.
    destruct (contains s (lit "summary")); simpl; try discriminate.
    destruct (contains s (lit "improvement")); simpl; discriminate.
  - destruct (existsb (is_the_string (lit "score")) l); simpl; try discriminate.
    destruct (existsb (is_the_string (lit "summary")) l); simpl; try discriminate.
    destruct (existsb (is_the_string (lit "improvement")) l); simpl; discriminate.
Qed.

Lemma build_evaluation_missing rt d :
  dict_has d (lit "score") && dict_has d (lit "summary")
    && dict_has d (lit "improvement") = false ->
  build_evaluation rt (JObject d)
  = Raises (Exc ValueError
      (lit "Missing required fields in response: " ++ py_repr rt (JObject d))).
Proof.
  intros H. unfold build_evaluation, missing_required.
  rewrite !py_in_object. simpl.
  destruct (dict_has d (lit "score")); simpl; trivial.
  destruct (dict_has d (lit "summary")); simpl; trivial.
  destruct (dict_has d (lit "improvement")); simpl; trivial.
  discriminate H.
Qed.

(** X8: validation returns an evaluation exactly when the parsed value is
    an object that has the three keys and whose score [int] reads as an
    integer from 1 to 5; the evaluation then holds that integer and the
    [str] of the two other values, whatever their JSON type.  A list, a
    string or a scalar never yields an evaluation, and no field is ever
    filled with a default. *)
Theorem evaluation_is_built_from_an_object_with_three_keys rt result ev :
  build_evaluation rt result = Returns ev <->
  exists d sv su im,
    result = JObject d
    /\ dict_get d (lit "score") = Some sv
    /\ dict_get d (lit "summary") = Some su
    /\ dict_get d (lit "improvement") = Some im
    /\ py_int rt sv = Returns (EvaluationResponse.score ev)
    /\ (1 <= EvaluationResponse.score ev <= 5)%Z
    /\ EvaluationResponse.summary ev = py_str rt su
    /\ EvaluationResponse.improvement ev = py_str rt im.
Proof.
  split.
  - intros H.
    destruct (build_evaluation_returns_object _ _ _ H) as [d ->].
    destruct (dict_has d (lit "score") && dict_has d (lit "summary")
                && dict_has d (lit "improvement")) eqn:E.
    + apply andb_true_iff in E as [E Him].
      apply andb_true_iff in E as [Hs Hsu].
      apply dict_has_get in Hs as [sv Hs].
      apply dict_has_get in Hsu as [su Hsu].
      apply dict_has_get in Him as [im Him].
      rewrite (build_evaluation_object rt d sv su im Hs Hsu Him) in H.
      destruct (py_int rt sv) as [k|e] eqn:Hi; simpl in H; try discriminate H.
      apply new_EvaluationResponse_inv in H as [-> Hk].
      exists d, sv, su, im. simpl. auto 10.
    + rewrite (build_evaluation_missing rt d E) in H. discriminate H.
  - intros (d & sv & su & im & -> & Hs & Hsu & Him & Hi & Hk & Hsum & Himp).
    rewrite (build_evaluation_object rt d sv su im Hs Hsu Him), Hi. simpl.
    unfold new_EvaluationResponse.
    replace ((1 <=? EvaluationResponse.score ev)%Z
             && (EvaluationResponse.score ev <=? 5)%Z) with true.
    + destruct ev as [k s i]. simpl in *. now subst.
    + symmetry. apply andb_true_iff. split; apply Z.leb_le; lia.
Qed.

Lemma evaluation_is_built_from_an_object_with_three_keys_witness :
  build_evaluation (canned [])
    (JObject [(lit "score", JFloat (S754_finite false 9 (-1)));
              (lit "summary", JNull);
              (lit "improvement", JArray [])])
  = Returns (EvaluationResponse.Make 4 (lit "<value>") (lit "<value>")).
Proof.
  apply (proj2 (evaluation_is_built_from_an_object_with_three_keys (canned [])
                  (JObject [(lit "score", JFloat (S754_finite false 9 (-1)));
                            (lit "summary", JNull);
                            (lit "improvement", JArray [])])
                  (EvaluationResponse.Make 4 (lit "<value>") (lit "<value>")))).
  exists [(lit "score", JFloat (S754_finite false 9 (-1)));
          (lit "summary", JNull);
          (lit "improvement", JArray [])],
         (JFloat (S754_finite false 9 (-1))), JNull, (JArray []).
  repeat split; try reflexivity; simpl; lia.
Defined.

(** X9: a JSON boolean passes for a score: [true] is read as 1 and gives
    an evaluation of score 1, [false] is read as 0, which the bound on the
    score rejects. *)
Theorem boolean_score_is_read_as_integer rt d b su im :
  dict_get d (lit "score") = Some (JBool b) ->
  dict_get d (lit "summary") = Some su ->
  dict_get d (lit "improvement") = Some im ->
  build_evaluation rt (JObject d)
  = if b
    then Returns (EvaluationResponse.Make 1 (py_str rt su) (py_str rt im))
    else Raises (Exc ValueError (lib_message rt (F_validation 0))).
Proof.
  intros Hs Hsu Him.
  rewrite (build_evaluation_object rt d (JBool b) su im Hs Hsu Him).
  now destruct b.
Qed.

Lemma boolean_score_is_read_as_integer_witness :
  build_evaluation (canned [])
    (JObject [(lit "score", JBool true);
              (lit "summary", JString (lit "Yes"));
              (lit "improvement", JString (lit "No"))])
  = Returns (EvaluationResponse.Make 1 (lit "Yes") (lit "No")).
Proof.
  apply (boolean_score_is_read_as_integer (canned [])
           [(lit "score", JBool true);
            (lit "summary", JString (lit "Yes"));
            (lit "improvement", JString (lit "No"))]
           true (JString (lit "Yes")) (JString (lit "No")));
    reflexivity.
Defined.

(** X10: a reply that parses to a scalar (null, a boolean, a number) fails
    in the first membership test with a TypeError, which the last handler
    reports as a Groq API error with status 500. *)
Theorem scalar_reply_is_reported_as_api_error
    rt calls answer question_context content others v :
  groq_available rt = true ->
  completions_create rt (length calls) (build_prompt answer question_context)
    = ApiReturns (Some content :: others) ->
  parse_json rt (_strip_markdown (strip content)) = Returns v ->
  v = JNull \/ (exists b, v = JBool b) \/ (exists n, v = JInt n)
    \/ (exists f, v = JFloat f) ->
  evaluate_with_groq rt calls answer question_context
  = (Raises (HTTPException 500
       (lit "Groq API error: " ++ lib_message rt (F_not_iterable v))),
     calls ++ [build_prompt answer question_context]).
Proof.
  intros Ha Hc Hp Hv.
  rewrite (evaluate_with_groq_extract _ _ _ _ _ _ Ha Hc).
  unfold extract. rewrite Hp. simpl bind.
  destruct Hv as [-> | [[b ->] | [[n ->] | [f ->]]]]; reflexivity.
Qed.

Lemma scalar_reply_is_reported_as_api_error_witness :
  evaluate_with_groq (canned [says "4"]) [] (lit "an answer") []
  = (Raises (HTTPException 500 (lit "Groq API error: <library message>")),
     [] ++ [build_prompt (lit "an answer") []]).
Proof.
  apply (scalar_reply_is_reported_as_api_error
           (canned [says "4"]) [] (lit "an answer") [] (jlit "4") [] (JInt 4)).
  - reflexivity.
  - reflexivity.
  - vm_compute. reflexivity.
  - right. right. left. exists 4%Z. reflexivity.
Defined.

(** X11: a reply that parses to a list is never evaluated.  If the
    strings score, summary and improvement are all among its items, the
    membership tests pass and the indexing by a string fails with a
    TypeError, reported as a Groq API error; otherwise the failure is the
    one of a missing field. *)
Theorem list_reply_is_never_evaluated
    rt calls answer question_context content others l :
  groq_available rt = true ->
  completions_create rt (length calls) (build_prompt answer question_context)
    = ApiReturns (Some content :: others) ->
  parse_json rt (_strip_markdown (strip content)) = Returns (JArray l) ->
  evaluate_with_groq rt calls answer question_context
  = (Raises (HTTPException 500
       (if existsb (is_the_string (lit "score")) l
           && existsb (is_the_string (lit "summary")) l
           && existsb (is_the_string (lit "improvement")) l
        then lit "Groq API error: "
               ++ lib_message rt (F_not_subscriptable (JArray l))
        else lit "Missing required fields in response: "
               ++ py_repr rt (JArray l))),
     calls ++ [build_prompt answer question_context]).
Proof.
  intros Ha Hc Hp.
  rewrite (evaluate_with_groq_extract _ _ _ _ _ _ Ha Hc).
  unfold extract. rewrite Hp. simpl bind.
  unfold build_evaluation, missing_required, py_in. simpl bind.
  destruct (existsb (is_the_string (lit "score")) l); simpl; trivial.
  destruct (existsb (is_the_string (lit "summary")) l); simpl; trivial.
  destruct (existsb (is_the_string (lit "improvement")) l); simpl; trivial.
Qed.

Lemma list_reply_is_never_evaluated_witness :
  evaluate_with_groq (canned [says "['score', 'summary', 'improvement']"])
    [] (lit "an answer") []
  = (Raises (HTTPException 500 (lit "Groq API error: <library message>")),
     [] ++ [build_prompt (lit "an answer") []]).
Proof.
  apply (list_reply_is_never_evaluated
           (canned [says "['score', 'summary', 'improvement']"])
           [] (lit "an answer") []
           (jlit "['score', 'summary', 'improvement']") []
           [JString (lit "score"); JString (lit "summary");
            JString (lit "improvement")]).
  - reflexivity.
  - reflexivity.
  - vm_compute. reflexivity.
Defined.

(** ** The brace fallback *)

Lemma star_none_any (A : Type) c (k : str -> option A) t :
  (forall a t', t = a ++ t' -> k t' = None) -> star c k t = None.
Proof.
  induction t as [|x t IH]; intros H; simpl.
  - apply (H [] []). reflexivity.
  - assert (H0 : k (x :: t) = None) by (apply (H [] (x :: t)); reflexivity).
    rewrite IH.
    + now destruct (c x).
    + intros a t' ->. apply (H (x :: a) t'). reflexivity.
Qed.

Lemma star_prefix (A : Type) c (k : str -> option A) a t m :
  forallb c a = true -> star c k t = Some m -> star c k (a ++ t) = Some m.
Proof.
  intros Ha Ht. induction a as [|x a IH]; trivial.
  simpl in Ha. apply andb_true_iff in Ha as [Hx Ha].
  simpl. now rewrite Hx, (IH Ha).
Qed.

Lemma lacks_cons x c s : lacks x (c :: s) -> (c =? x) = false /\ lacks x s.
Proof.
  unfold lacks. simpl. intros H. apply andb_true_iff in H as [H1 H2].
  split; trivial. now apply negb_true_iff.
Qed.

Lemma lacks_suffix x a t : lacks x (a ++ t) -> lacks x t.
Proof.
  unfold lacks. rewrite forallb_app. intros H.
  now apply andb_true_iff in H as [_ H].
Qed.

Lemma startswith_lacks x t : lacks x t -> startswith t [x] = false.
Proof.
  destruct t as [|c t]; trivial. intros H.
  apply lacks_cons in H as [H _]. cbn [startswith].
  rewrite N.eqb_sym, H. reflexivity.
Qed.

Lemma no_close_here (A : Type) t (x : option A) :
  lacks 125 t -> (if startswith t (lit "}") then x else None) = None.
Proof.
  intros H. destruct t as [|c t]; trivial.
  apply lacks_cons in H as [H _].
  change (startswith (c :: t) (lit "}")) with ((125 =? c) && true).
  rewrite N.eqb_sym, H. reflexivity.
Qed.

Lemma exec_brace_pattern (A : Type) s g (k : str -> option str -> option A) :
  exec brace_pattern s g k
  = if startswith s (lit "{")
    then star space_or_not
           (fun t => if startswith t (lit "}")
                     then k (skipn (length (lit "}")) t) g else None)
           (skipn (length (lit "{")) s)
    else None.
Proof. reflexivity. Qed.

Lemma space_or_not_all a : forallb space_or_not a = true.
Proof.
  induction a as [|x a IH]; trivial. simpl. rewrite IH.
  unfold space_or_not. now destruct (isspace x).
Qed.

(** Without a closing brace there is no match anywhere. *)
Lemma brace_search_no_close t :
  lacks 125 t -> re_search brace_pattern t = None.
Proof.
  induction t as [|c t IH]; intros H; trivial.
  assert (Ht : lacks 125 t) by (now apply lacks_cons in H).
  cbn [re_search]. unfold re_match_at. rewrite exec_brace_pattern.
  replace (if startswith (c :: t) (lit "{") then _ else None)
    with (@None re_match); [now apply IH|].
  destruct (startswith (c :: t) (lit "{")); trivial.
  symmetry. apply star_none_any. intros a t' Heq.
  apply no_close_here.
  change (skipn (length (lit "{")) (c :: t)) with t in Heq.
  rewrite Heq in Ht. now apply lacks_suffix in Ht.
Qed.

Lemma brace_search_skip pre s :
  lacks 123 pre ->
  re_search brace_pattern (pre ++ s) = re_search brace_pattern s.
Proof.
  induction pre as [|c pre IH]; intros H; trivial.
  apply lacks_cons in H as [Hc H].
  cbn [app re_search]. unfold re_match_at at 1. rewrite exec_brace_pattern.
  change (lit "{") with [123]. cbn [startswith].
  rewrite N.eqb_sym, Hc. simpl. now apply IH.
Qed.

Lemma brace_search_span pre mid post :
  lacks 123 pre -> lacks 125 post ->
  re_search brace_pattern (pre ++ [123] ++ mid ++ [125] ++ post)
  = Some (MkMatch ([123] ++ mid ++ [125]) None).
Proof.
  intros Hpre Hpost. rewrite brace_search_skip by exact Hpre.
  apply re_search_at. unfold re_match_at. rewrite exec_brace_pattern.
  change (startswith ([123] ++ mid ++ [125] ++ post) (lit "{")) with true.
  cbv iota.
  change (skipn (length (lit "{")) ([123] ++ mid ++ [125] ++ post))
    with (mid ++ 125 :: post).
  apply star_prefix; [apply space_or_not_all|].
  cbn [star].
  rewrite star_none_any.
  - replace (space_or_not 125) with true by reflexivity.
    change (startswith (125 :: post) (lit "}")) with true. cbv iota.
    change (skipn (length (lit "}")) (125 :: post)) with post.
    do 2 f_equal.
    change ([123] ++ mid ++ [125] ++ post) with (123 :: mid ++ 125 :: post).
    replace (123 :: mid ++ 125 :: post) with (([123] ++ mid ++ [125]) ++ post)
      by (simpl; rewrite <- app_assoc; reflexivity).
    apply firstn_length_app.
  - intros a t' Heq. apply no_close_here.
    rewrite Heq in Hpost. now apply lacks_suffix in Hpost.
Qed.

(** X12: the fallback pattern matches the span from the first opening
    brace of the text to its last closing brace; it finds nothing exactly
    when no closing brace follows the first opening one. *)
Theorem brace_fallback_spans_first_open_to_last_close pre mid post t :
  lacks 123 pre -> lacks 125 post -> lacks 125 t ->
  re_search brace_pattern (pre ++ [123] ++ mid ++ [125] ++ post)
    = Some (MkMatch ([123] ++ mid ++ [125]) None)
  /\ re_search brace_pattern (pre ++ t) = None.
Proof.
  intros Hpre Hpost Ht. split.
  - now apply brace_search_span.
  - rewrite brace_search_skip by exact Hpre. now apply brace_search_no_close.
Qed.

Lemma brace_fallback_spans_first_open_to_last_close_witness :
  re_search brace_pattern
    (lit "Sure} here: " ++ [123] ++ lit "a}{b" ++ [125] ++ lit " done{")
    = Some (MkMatch ([123] ++ lit "a}{b" ++ [125]) None)
  /\ re_search brace_pattern (lit "Sure} here: " ++ lit "{ never closed") = None.
Proof.
  apply brace_fallback_spans_first_open_to_last_close; reflexivity.
Defined.

Lemma parse_json_fallback rt cleaned e :
  json_loads rt cleaned = Raises e -> is_json_decode_error e = true ->
  parse_json rt cleaned
  = match re_search brace_pattern cleaned with
    | Some json_match => json_loads rt (group0 json_match)
    | None =>
        Raises (Exc ValueError
          (lit "Could not parse JSON from response: " ++ firstn 200 cleaned))
    end.
Proof. intros H He. unfold parse_json. now rewrite H, He. Qed.

(** X13: a cleaned text on which [json.loads] raises JSONDecodeError and
    which has no closing brace after its first opening brace fails with
    status 500; the detail quotes at most the first 200 characters of the
    cleaned text. *)
Theorem reply_without_object_span_fails_with_excerpt
    rt calls answer question_context content others pre t e :
  groq_available rt = true ->
  completions_create rt (length calls) (build_prompt answer question_context)
    = ApiReturns (Some content :: others) ->
  _strip_markdown (strip content) = pre ++ t ->
  lacks 123 pre -> lacks 125 t ->
  json_loads rt (pre ++ t) = Raises e -> is_json_decode_error e = true ->
  evaluate_with_groq rt calls answer question_context
  = (Raises (HTTPException 500
       (lit "Could not parse JSON from response: " ++ firstn 200 (pre ++ t))),
     calls ++ [build_prompt answer question_context])
  /\ (length (firstn 200 (pre ++ t)) <= 200)%nat.
Proof.
  intros Ha Hc Hcl Hpre Ht Hl He. split; [|apply firstn_le_length].
  rewrite (evaluate_with_groq_extract _ _ _ _ _ _ Ha Hc), Hcl.
  unfold extract. rewrite (parse_json_fallback _ _ _ Hl He).
  rewrite brace_search_skip, brace_search_no_close by assumption.
  reflexivity.
Qed.

Lemma reply_without_object_span_fails_with_excerpt_witness :
  evaluate_with_groq (canned [says "I would give a { 4"]) []
    (lit "an answer") []
  = (Raises (HTTPException 500
       (lit "Could not parse JSON from response: "
          ++ firstn 200 (lit "I would give a " ++ lit "{ 4"))),
     [] ++ [build_prompt (lit "an answer") []])
  /\ (length (firstn 200 (lit "I would give a " ++ lit "{ 4")) <= 200)%nat.
Proof.
  apply (reply_without_object_span_fails_with_excerpt
           (canned [says "I would give a { 4"]) [] (lit "an answer") []
           (jlit "I would give a { 4") [] (lit "I would give a ") (lit "{ 4")
           (Exc JSONDecodeError (lit "<library message>")));
    vm_compute; reflexivity.
Defined.

(** X14: when [json.loads] raises JSONDecodeError on the cleaned text,
    what is parsed instead is the span from its first opening brace to its
    last closing brace, whatever stands before and after.  If the span
    parses, validation goes on with its value; if [json.loads] raises
    JSONDecodeError on the span too, the evaluation fails with status 500
    and a detail that quotes at most the first 300 characters of the cleaned
    text. *)
Theorem surrounded_object_is_parsed_from_its_span
    rt calls answer question_context content others (pre mid post : str) e :
  groq_available rt = true ->
  completions_create rt (length calls) (build_prompt answer question_context)
    = ApiReturns (Some content :: others) ->
  _strip_markdown (strip content) = pre ++ [123] ++ mid ++ [125] ++ post ->
  lacks 123 pre -> lacks 125 post ->
  json_loads rt (pre ++ [123] ++ mid ++ [125] ++ post) = Raises e ->
  is_json_decode_error e = true ->
  parse_json rt (pre ++ [123] ++ mid ++ [125] ++ post)
    = json_loads rt ([123] ++ mid ++ [125])
  /\ (forall result,
        json_loads rt ([123] ++ mid ++ [125]) = Returns result ->
        extract rt (pre ++ [123] ++ mid ++ [125] ++ post)
        = build_evaluation rt result)
  /\ (forall e',
        json_loads rt ([123] ++ mid ++ [125]) = Raises e' ->
        is_json_decode_error e' = true ->
        evaluate_with_groq rt calls answer question_context
        = (Raises (HTTPException 500
             (lit "Failed to parse JSON from model. Raw response: "
                ++ firstn 300 (pre ++ [123] ++ mid ++ [125] ++ post))),
           calls ++ [build_prompt answer question_context])
        /\ Nat.le
             (length (firstn 300 (pre ++ [123] ++ mid ++ [125] ++ post))) 300).
Proof.
  intros Ha Hc Hcl Hpre Hpost Hl He.
  assert (P : parse_json rt (pre ++ [123] ++ mid ++ [125] ++ post)
              = json_loads rt ([123] ++ mid ++ [125])).
  { rewrite (parse_json_fallback _ _ _ Hl He).
    now rewrite brace_search_span. }
  split; [exact P|]. split.
  - intros result Hr. unfold extract. now rewrite P, Hr.
  - intros e' Hr He'. split; [|apply firstn_le_length].
    rewrite (evaluate_with_groq_extract _ _ _ _ _ _ Ha Hc), Hcl.
    unfold extract. rewrite P, Hr. simpl bind.
    unfold handle. now rewrite He'.
Qed.

Lemma surrounded_object_is_parsed_from_its_span_witness :
  extract (canned [says "Here is my verdict: {'score': 2, 'summary': 'x', 'improvement': 'y'} Hope it helps."])
    (lit "Here is my verdict: " ++ [123]
       ++ jlit "'score': 2, 'summary': 'x', 'improvement': 'y'" ++ [125]
       ++ lit " Hope it helps.")
  = build_evaluation (canned [says "Here is my verdict: {'score': 2, 'summary': 'x', 'improvement': 'y'} Hope it helps."])
      (JObject [(lit "score", JInt 2); (lit "summary", JString (lit "x"));
                (lit "improvement", JString (lit "y"))]).
Proof.
  refine (proj1 (proj2 (surrounded_object_is_parsed_from_its_span
     (canned [says "Here is my verdict: {'score': 2, 'summary': 'x', 'improvement': 'y'} Hope it helps."])
     [] (lit "an answer") []
     (jlit "Here is my verdict: {'score': 2, 'summary': 'x', 'improvement': 'y'} Hope it helps.")
     [] (lit "Here is my verdict: ")
     (jlit "'score': 2, 'summary': 'x', 'improvement': 'y'")
     (lit " Hope it helps.")
     (Exc JSONDecodeError (lit "<library message>"))
     _ _ _ _ _ _ _)) _ _); vm_compute; reflexivity.
Defined.

(** ** More on [_strip_markdown] *)

Lemma lstrip_length s : (length (lstrip s) <= length s)%nat.
Proof.
  induction s as [|c s IH]; simpl; trivial.
  destruct (isspace c); simpl; lia.
Qed.

Lemma lstrip_fixed_head c t : lstrip (c :: t) = c :: t -> isspace c = false.
Proof.
  intros H. destruct (isspace c) eqn:E; trivial.
  simpl in H. rewrite E in H.
  pose proof (lstrip_length t) as L. rewrite H in L. simpl in L. lia.
Qed.

(** X15: the result of [_strip_markdown] is trimmed: it neither begins
    nor ends with a white-space character. *)
Theorem strip_markdown_result_is_trimmed text :
  (forall c t, _strip_markdown text = c :: t -> isspace c = false)
  /\ (forall t c, _strip_markdown text = t ++ [c] -> isspace c = false).
Proof.
  pose proof (strip_markdown_stripped text) as S.
  set (r := _strip_markdown text) in *.
  assert (L : lstrip r = r) by (rewrite <- S; apply lstrip_strip).
  assert (R : rstrip r = r).
  { rewrite <- S at 1. unfold strip. rewrite rstrip_idem.
    fold (strip r). exact S. }
  split.
  - intros c t E. rewrite E in L. now apply lstrip_fixed_head in L.
  - intros t c E. rewrite E in R. unfold rstrip in R.
    apply (f_equal (@rev char)) in R.
    rewrite rev_involutive, rev_app_distr in R. simpl in R.
    now apply lstrip_fixed_head in R.
Qed.

Lemma strip_markdown_result_is_trimmed_witness : isspace 123 = false.
Proof.
  apply (proj1 (strip_markdown_result_is_trimmed (jlit "  ```json
  {'score': 4}
```  ")) 123 (jlit "'score': 4}")).
  vm_compute. reflexivity.
Defined.

Lemma is_suffix_refl s : is_suffix s s.
Proof. now exists []. Qed.

Lemma is_suffix_trans a b c : is_suffix a b -> is_suffix b c -> is_suffix a c.
Proof.
  intros [x ->] [y ->]. exists (y ++ x). now rewrite app_assoc.
Qed.

Lemma is_suffix_cons x t s : is_suffix t s -> is_suffix t (x :: s).
Proof. intros [a ->]. now exists (x :: a). Qed.

Lemma is_suffix_skipn n s : is_suffix (skipn n s) s.
Proof. exists (firstn n s). symmetry. apply firstn_skipn. Qed.

Lemma is_suffix_lstrip s : is_suffix (lstrip s) s.
Proof.
  induction s as [|c s IH]; simpl.
  - apply is_suffix_refl.
  - destruct (isspace c); [now apply is_suffix_cons | apply is_suffix_refl].
Qed.

Lemma is_substring_refl s : is_substring s s.
Proof. exists [], []. now rewrite app_nil_r. Qed.

Lemma is_substring_trans a b c :
  is_substring a b -> is_substring b c -> is_substring a c.
Proof.
  intros (x & y & ->) (u & v & ->).
  exists (u ++ x), (y ++ v). now rewrite <- !app_assoc.
Qed.

Lemma is_suffix_substring t s : is_suffix t s -> is_substring t s.
Proof. intros [a ->]. exists a, []. now rewrite app_nil_r. Qed.

Lemma is_substring_strip s : is_substring (strip s) s.
Proof.
  apply is_substring_trans with (lstrip s).
  - destruct (is_suffix_lstrip (rev (lstrip s))) as [a Ha].
    exists [], (rev a).
    change (lstrip s = rev (lstrip (rev (lstrip s))) ++ rev a).
    rewrite <- rev_app_distr, <- Ha. symmetry. apply rev_involutive.
  - apply is_suffix_substring, is_suffix_lstrip.
Qed.

Lemma is_substring_length r s : is_substring r s -> (length r <= length s)%nat.
Proof. intros (a & b & ->). rewrite !length_app. lia. Qed.

Lemma star_some_suffix (A : Type) c (k : str -> option A) s m :
  star c k s = Some m -> exists t, is_suffix t s /\ k t = Some m.
Proof.
  induction s as [|x s IH]; simpl; intros H.
  - exists []. split; [apply is_suffix_refl | exact H].
  - destruct (c x).
    + destruct (star c k s) eqn:E.
      * inversion H; subst. destruct (IH eq_refl) as (t & St & Ht).
        exists t. split; [now apply is_suffix_cons | exact Ht].
      * exists (x :: s). split; [apply is_suffix_refl | exact H].
    + exists (x :: s). split; [apply is_suffix_refl | exact H].
Qed.

Lemma star_lazy_some_suffix (A : Type) c (k : str -> option A) s m :
  star_lazy c k s = Some m -> exists t, is_suffix t s /\ k t = Some m.
Proof.
  induction s as [|x s IH]; simpl; intros H.
  - destruct (k []) eqn:E; inversion H; subst.
    exists []. split; [apply is_suffix_refl | exact E].
  - destruct (k (x :: s)) eqn:E.
    + inversion H; subst. exists (x :: s).
      split; [apply is_suffix_refl | exact E].
    + destruct (c x); [|discriminate H].
      destruct (IH H) as (t & St & Ht).
      exists t. split; [now apply is_suffix_cons | exact Ht].
Qed.

(** The shape of a match of the fence pattern at the head of [t]: an
    opening fence, later a closing one, and in group 1 the head of some
    text [u] in between. *)
Lemma fence_match_shape t m :
  re_match_at fence_pattern t = Some m ->
  startswith t fence = true
  /\ exists u t1 t2,
       is_suffix u (skipn (length fence) t)
       /\ is_suffix t1 u /\ is_suffix t2 t1
       /\ startswith t2 fence = true
       /\ group1 m = Some (firstn (length u - length t1) u).
Proof.
  unfold re_match_at, fence_pattern. cbn [exec]. intros H.
  destruct (startswith t fence) eqn:F; [|discriminate H].
  split; trivial.
  assert (B : forall u0 g0,
    is_suffix u0 (skipn (length fence) t) ->
    exec fence_body u0 g0
      (fun t0 g => Some (MkMatch (firstn (length t - length t0) t) g))
      = Some m ->
    exists u t1 t2,
      is_suffix u (skipn (length fence) t)
      /\ is_suffix t1 u /\ is_suffix t2 t1
      /\ startswith t2 fence = true
      /\ group1 m = Some (firstn (length u - length t1) u)).
  { intros u0 g0 S0 Hb. rewrite exec_fence_body in Hb.
    apply star_some_suffix in Hb as (u & Su & Hb).
    apply star_lazy_some_suffix in Hb as (t1 & S1 & Hb).
    apply star_some_suffix in Hb as (t2 & S2 & Hb).
    destruct (startswith t2 fence) eqn:F2; [|discriminate Hb].
    inversion Hb; subst. exists u, t1, t2.
    repeat split; trivial. now apply is_suffix_trans with u0. }
  destruct (startswith (skipn (length fence) t) (lit "json")).
  - match type of H with
    | match ?e with _ => _ end = _ => destruct e eqn:E
    end.
    + inversion H; subst. eapply B; [|exact E]. apply is_suffix_skipn.
    + eapply B; [|exact H]. apply is_suffix_refl.
  - eapply B; [|exact H]. apply is_suffix_refl.
Qed.

Lemma firstn_of_suffix (u t1 : str) :
  is_suffix t1 u -> is_substring (firstn (length u - length t1) u) u.
Proof.
  intros [a ->]. rewrite firstn_length_app. exists [], t1. reflexivity.
Qed.

Lemma fence_search_shape s m :
  re_search fence_pattern s = Some m ->
  exists t, is_suffix t s /\ re_match_at fence_pattern t = Some m.
Proof.
  induction s as [|x s IH]; simpl; intros H.
  - discriminate H.
  - destruct (re_match_at fence_pattern (x :: s)) eqn:E.
    + inversion H; subst. exists (x :: s). split; [apply is_suffix_refl | exact E].
    + destruct (IH H) as (t & St & Ht). exists t.
      split; [now apply is_suffix_cons | exact Ht].
Qed.

Lemma strip_fences_substring text : is_substring (strip_fences text) text.
Proof.
  unfold strip_fences.
  destruct (startswith text fence); [|apply is_substring_refl].
  destruct (re_search fence_pattern text) as [m|] eqn:E;
    [|apply is_substring_refl].
  destruct (group1 m) as [g|] eqn:G; [|apply is_substring_refl].
  apply fence_search_shape in E as (t & St & E).
  apply fence_match_shape in E as (_ & u & t1 & t2 & Su & S1 & _ & _ & G').
  rewrite G in G'. inversion G'; subst g.
  apply is_substring_trans with (firstn (length u - length t1) u);
    [apply is_substring_strip|].
  apply is_substring_trans with u; [now apply firstn_of_suffix|].
  apply is_suffix_substring.
  apply is_suffix_trans with (skipn (length fence) t); trivial.
  apply is_suffix_trans with t; trivial. apply is_suffix_skipn.
Qed.

(** X16: [_strip_markdown] only removes text: its result is a contiguous
    piece of the input, hence never longer than the input. *)
Theorem strip_markdown_result_is_a_piece_of_the_input text :
  is_substring (_strip_markdown text) text
  /\ (length (_strip_markdown text) <= length text)%nat.
Proof.
  assert (S : is_substring (_strip_markdown text) text).
  { unfold _strip_markdown.
    apply is_substring_trans with (strip text); [|apply is_substring_strip].
    apply is_substring_trans with (strip_fences (strip text));
      [|apply strip_fences_substring].
    unfold strip_json_tag.
    destruct (startswith (strip_fences (strip text)) (lit "json"));
      [|apply is_substring_refl].
    apply is_substring_trans with (skipn 4 (strip_fences (strip text)));
      [apply is_substring_strip|].
    apply is_suffix_substring, is_suffix_skipn. }
  split; [exact S | now apply is_substring_length].
Qed.

Lemma fence_body_match_rest (A : Type) (k : str -> option str -> option A)
    g w1 w2 (l J rest : str) m :
  J = (123 :: l) ++ [125] ->
  blank w1 -> blank w2 ->
  contains J fence = false ->
  k rest (Some J) = Some m ->
  exec fence_body (w1 ++ J ++ w2 ++ fence ++ rest) g k = Some m.
Proof.
  intros HJ H1 H2 Hc Hk.
  rewrite exec_fence_body.
  apply star_blank; trivial.
  { rewrite HJ. reflexivity. }
  rewrite star_lazy_skip.
  - apply star_lazy_here.
    apply star_blank; trivial.
    rewrite startswith_app, skipn_length_app, firstn_length_app. exact Hk.
  - intros a b Hab Hb. apply star_none. intros a' t' Heq Ha'.
    destruct (last_of_suffix (123 :: l) a b 125) as [b0 ->]; trivial.
    { etransitivity; [symmetry; exact HJ | exact Hab]. }
    rewrite <- app_assoc in Heq. simpl in Heq.
    destruct (blank_prefix _ _ _ _ _ Heq Ha') as (b1 & -> & ->);
      [reflexivity|].
    assert (F : startswith (b1 ++ 125 :: w2 ++ fence ++ rest) fence = false).
    { replace (b1 ++ 125 :: w2 ++ fence ++ rest)
        with ((b1 ++ [125]) ++ w2 ++ fence ++ rest)
        by (now rewrite <- app_assoc).
      apply (no_fence_inside (123 :: l) (a ++ a')).
      - subst J. exact Hc.
      - etransitivity; [symmetry; exact HJ|].
        etransitivity; [exact Hab|]. now rewrite <- !app_assoc.
      - now destruct b1. }
    cbv beta.
    match goal with
    | |- (if ?c then _ else _) = _ =>
        assert (E : c = false) by exact F; now rewrite E
    end.
Qed.

Lemma strip_fences_fenced_rest tag w1 w2 (l J rest : str) :
  J = (123 :: l) ++ [125] ->
  tag = [] \/ tag = lit "json" ->
  blank w1 -> blank w2 ->
  contains J fence = false ->
  strip_fences (fence ++ tag ++ w1 ++ J ++ w2 ++ fence ++ rest) = strip J.
Proof.
  intros HJ Ht H1 H2 Hc.
  unfold strip_fences. rewrite startswith_app.
  set (X := fence ++ tag ++ w1 ++ J ++ w2 ++ fence ++ rest).
  assert (M : exists g0, re_match_at fence_pattern X = Some (MkMatch g0 (Some J))).
  { exists (firstn (length X - length rest) X).
    unfold re_match_at, fence_pattern. cbn [exec].
    subst X. rewrite startswith_app, skipn_length_app.
    destruct Ht as [-> | ->].
    - cbn [app]. rewrite not_json_after_blank; trivial.
      + now apply (fence_body_match_rest _ _ _ w1 w2 l J rest).
      + rewrite HJ. reflexivity.
    - rewrite startswith_app, skipn_length_app.
      now rewrite (fence_body_match_rest _ _ _ w1 w2 l J rest _ HJ H1 H2 Hc eq_refl). }
  destruct M as [g0 M]. now rewrite (re_search_at _ _ _ M).
Qed.

Lemma lstrip_app_nonspace a d b :
  isspace d = false -> lstrip (a ++ d :: b) = lstrip a ++ d :: b.
Proof.
  intros Hd. induction a as [|x a IH]; simpl.
  - now rewrite Hd.
  - destruct (isspace x); trivial.
Qed.

Lemma rstrip_app_keep (X rest : str) d :
  isspace d = false ->
  rstrip ((X ++ [d]) ++ rest) = (X ++ [d]) ++ rstrip rest.
Proof.
  intros Hd. unfold rstrip.
  assert (E : rev ((X ++ [d]) ++ rest) = rev rest ++ d :: rev X)
    by (rewrite !rev_app_distr; reflexivity).
  rewrite E, (lstrip_app_nonspace _ _ _ Hd), rev_app_distr.
  cbn [rev]. now rewrite rev_involutive.
Qed.

(** X17: whatever the model writes after the first closing fence is
    discarded: for a fenced object text without inner fence marker the
    result is the object text, for every text that follows the fence. *)
Theorem text_after_closing_fence_is_discarded
    tag w0 w1 w2 (body rest : str) :
  tag = [] \/ tag = lit "json" ->
  blank w0 -> blank w1 -> blank w2 ->
  contains (lit "{" ++ body ++ lit "}") fence = false ->
  _strip_markdown
    (w0 ++ fence ++ tag ++ w1 ++ (lit "{" ++ body ++ lit "}") ++ w2 ++ fence ++ rest)
  = lit "{" ++ body ++ lit "}".
Proof.
  intros Ht H0 H1 H2 Hc.
  set (J := lit "{" ++ body ++ lit "}") in *.
  assert (HJ : J = (123 :: body) ++ [125]) by reflexivity.
  assert (SJ : strip J = J).
  { rewrite <- (app_nil_r J) at 1.
    apply (strip_text_between [] [] J (body ++ [125]) (123 :: body) 123 125);
      trivial; reflexivity. }
  assert (S : strip (w0 ++ fence ++ tag ++ w1 ++ J ++ w2 ++ fence ++ rest)
              = fence ++ tag ++ w1 ++ J ++ w2 ++ fence ++ rstrip rest).
  { unfold strip. rewrite lstrip_spaces by exact H0.
    replace (lstrip (fence ++ tag ++ w1 ++ J ++ w2 ++ fence ++ rest))
      with (fence ++ tag ++ w1 ++ J ++ w2 ++ fence ++ rest) by reflexivity.
    replace (fence ++ tag ++ w1 ++ J ++ w2 ++ fence ++ rest)
      with (((fence ++ tag ++ w1 ++ J ++ w2 ++ lit "``") ++ [96]) ++ rest)
      by (rewrite <- !app_assoc; reflexivity).
    rewrite rstrip_app_keep by reflexivity.
    rewrite <- !app_assoc. reflexivity. }
  unfold _strip_markdown. rewrite S.
  rewrite (strip_fences_fenced_rest tag w1 w2 body J (rstrip rest)); trivial.
  rewrite SJ. subst J. reflexivity.
Qed.

Lemma text_after_closing_fence_is_discarded_witness :
  _strip_markdown
    ([] ++ fence ++ lit "json" ++ [10]
       ++ (lit "{" ++ jlit "'score': 4" ++ lit "}") ++ [10] ++ fence
       ++ lit " I hope ```this``` helps!")
  = lit "{" ++ jlit "'score': 4" ++ lit "}".
Proof.
  apply text_after_closing_fence_is_discarded;
    try reflexivity. right. reflexivity.
Defined.

Lemma is_suffix_skipn_succ n (t : str) : is_suffix (skipn (S n) t) (skipn n t).
Proof.
  revert t. induction n as [|n IH]; intros t.
  - destruct t as [|x t]; simpl; [apply is_suffix_refl|].
    apply is_suffix_cons, is_suffix_refl.
  - destruct t as [|x t]; [apply is_suffix_refl|]. apply (IH t).
Qed.

Lemma is_suffix_skipn_app n (a t : str) : is_suffix (skipn n t) (skipn n (a ++ t)).
Proof.
  revert n. induction a as [|x a IH]; intros n; [apply is_suffix_refl|].
  destruct n as [|n].
  - simpl. apply is_suffix_cons. now exists a.
  - cbn [app skipn]. apply is_suffix_trans with (skipn n t); [|apply IH].
    apply is_suffix_skipn_succ.
Qed.

Lemma contains_of_suffix t s p :
  is_suffix t s -> contains t p = true -> contains s p = true.
Proof. intros [a ->]. apply contains_app_r. Qed.

Lemma fence_search_needs_closing s :
  contains (skipn (length fence) s) fence = false ->
  re_search fence_pattern s = None.
Proof.
  intros H. destruct (re_search fence_pattern s) as [m|] eqn:E; trivial.
  exfalso.
  apply fence_search_shape in E as (t & [a ->] & E).
  apply fence_match_shape in E as (_ & u & t1 & t2 & Su & S1 & S2 & F & _).
  apply contains_startswith in F.
  assert (C : contains (skipn (length fence) (a ++ t)) fence = true).
  { apply (contains_of_suffix t2); trivial.
    apply is_suffix_trans with t1; trivial.
    apply is_suffix_trans with u; trivial.
    apply is_suffix_trans with (skipn (length fence) t); trivial.
    apply is_suffix_skipn_app. }
  congruence.
Qed.

(** X18: an opening fence that is never closed is left in place: when the
    trimmed text begins with a fence marker and has no second one after
    it, the result is the trimmed text, fence included. *)
Theorem unterminated_fence_is_left_in_place text :
  startswith (strip text) fence = true ->
  contains (skipn 3 (strip text)) fence = false ->
  _strip_markdown text = strip text.
Proof.
  intros Hf Hc. unfold _strip_markdown, strip_fences. rewrite Hf.
  rewrite (fence_search_needs_closing _ Hc).
  unfold strip_json_tag.
  replace (startswith (strip text) (lit "json")) with false; trivial.
  destruct (strip text) as [|c t]; trivial.
  change fence with (96 :: lit "``") in Hf. cbn [startswith] in Hf.
  apply andb_true_iff in Hf as [Hf _]. apply N.eqb_eq in Hf. subst c.
  reflexivity.
Qed.

Lemma unterminated_fence_is_left_in_place_witness :
  _strip_markdown (jlit "  ```json
{'score': 4}  ")
  = strip (jlit "  ```json
{'score': 4}  ").
Proof.
  apply unterminated_fence_is_left_in_place; vm_compute; reflexivity.
Defined.

(** ** The prompt *)

(** X19: for a given question context the prompt determines the answer:
    two answers that lead to the same prompt are equal. *)
Theorem prompt_determines_answer answer answer' question_context :
  build_prompt answer question_context = build_prompt answer' question_context ->
  answer = answer'.
Proof.
  unfold build_prompt. intros H.
  repeat (apply app_inv_head in H).
  match type of H with
  | answer ++ ?T = answer' ++ ?T => apply (app_inv_tail T) in H
  end.
  exact H.
Qed.

Lemma prompt_determines_answer_witness : lit "same" = lit "same".
Proof.
  apply (prompt_determines_answer (lit "same") (lit "same") (lit "Why React?")).
  reflexivity.
Defined.

(** X20: the prompt does not determine the request: the question context
    is pasted in front of the answer without any escaping, so that a
    context which imitates the answer line gives the prompt of another
    request. *)
Theorem prompt_does_not_determine_request :
  ~ (forall answer question_context answer' question_context',
       build_prompt answer question_context
         = build_prompt answer' question_context' ->
       answer = answer' /\ question_context = question_context').
Proof.
  intros H.
  destruct (H (lit "B" ++ nl ++ nl ++ lit "Candidate's Answer: C") (lit "A")
              (lit "C") (lit "A" ++ nl ++ nl ++ lit "Candidate's Answer: B"))
    as [Ha _].
  - vm_compute. reflexivity.
  - vm_compute in Ha. discriminate Ha.
Qed.

